(** * open-in-cursor: the recent-folder store, the folder scanner, the
      workspace resolver and the open commands

    A shallow embedding of the three command files of the extension:

    - [src/open-in-cursor.tsx]       the "Documents" folder browser
      (module [OpenInCursor]);
    - the "Work" folder browser, the variant with workspace files and the
      clear action (module [OpenInCursorWork]);
    - the command that opens the Finder selection (module
      [OpenFinderSelection]; the reading of the [osascript] output is in
      module [FinderSelection]).

    JavaScript strings are modelled as [string], read as the UTF-8 bytes of
    the text.  The TypeScript interfaces become records, the zustand store
    becomes a field of the world that the commands thread through a small
    state-and-exception monad, and everything the code reaches outside the
    process (the file system, the Opener, the environment) is an explicit
    parameter of type [Env]. *)

From stdpp Require Import gmap strings list pretty.
From Stdlib Require Import Ascii String.

#[local] Set Warnings "-register-all".

Local Open Scope string_scope.
Local Open Scope list_scope.
Local Open Scope nat_scope.

(** ** Strings *)

(** The double quote character, U+0022. *)
Definition dquote : ascii := "034"%char.

Definition code (c : ascii) : N := N_of_ascii c.

(** [s.endsWith(suffix)]. *)
Definition endsWith (s suffix : string) : bool :=
  let n := String.length s in
  let m := String.length suffix in
  if (m <=? n)%nat then bool_decide (substring (n - m) m s = suffix) else false.

(** [s.split(sep)] for a one-character separator. *)
Fixpoint String_split (sep : ascii) (s : string) : list string :=
  match s with
  | EmptyString => [EmptyString]
  | String c s' =>
      if Ascii.eqb c sep then EmptyString :: String_split sep s'
      else match String_split sep s' with
           | x :: xs => String c x :: xs
           | [] => [String c EmptyString]
           end
  end.

(** [parts.join(sep)]. *)
Fixpoint Array_join (sep : string) (parts : list string) : string :=
  match parts with
  | [] => EmptyString
  | [x] => x
  | x :: xs => x +:+ sep +:+ Array_join sep xs
  end.

(** ** [path] (Node's POSIX implementation) *)

Module path.

(** [normalizeString]: the segments of a path, with empty and [.]
    segments dropped and [..] resolved against the segments kept so far
    ([res] holds them most recent first). *)
Fixpoint normalizeSegments (allowAboveRoot : bool) (segs res : list string)
  : list string :=
  match segs with
  | [] => rev res
  | seg :: segs' =>
      if bool_decide (seg = EmptyString) || bool_decide (seg = ".") then
        normalizeSegments allowAboveRoot segs' res
      else if bool_decide (seg = "..") then
        match res with
        | last :: res' =>
            if bool_decide (last = "..") then
              normalizeSegments allowAboveRoot segs'
                (if allowAboveRoot then ".." :: res else res)
            else normalizeSegments allowAboveRoot segs' res'
        | [] =>
            normalizeSegments allowAboveRoot segs'
              (if allowAboveRoot then [".."] else [])
        end
      else normalizeSegments allowAboveRoot segs' (seg :: res)
  end.

Definition normalize (p : string) : string :=
  if bool_decide (p = EmptyString) then "."
  else
    let isAbsolute := String.prefix "/" p in
    let trailingSeparator := endsWith p "/" in
    let p' :=
      Array_join "/" (normalizeSegments (negb isAbsolute) (String_split "/" p) []) in
    if bool_decide (p' = EmptyString) then
      if isAbsolute then "/" else if trailingSeparator then "./" else "."
    else
      let p'' := if trailingSeparator then p' +:+ "/" else p' in
      if isAbsolute then "/" +:+ p'' else p''.

(** [path.join(...args)]: the non-empty arguments joined by [/], then
    normalized. *)
Definition join (args : list string) : string :=
  match filter (λ arg, arg ≠ EmptyString) args with
  | [] => "."
  | parts => normalize (Array_join "/" parts)
  end.

End path.

(** ** Folders *)

(** [interface Folder { name: string; path: string }], declared alike in
    both browser commands. *)
Record Folder : Type := mkFolder { name : string; path : string }.

#[export] Instance Folder_eq_dec : EqDecision Folder.
Proof. solve_decision. Defined.

(** ** JSON *)

(** The values [JSON.parse] yields.  A number keeps its lexeme: none of the
    commands computes with one. *)
Inductive json : Type :=
| JNull
| JBool (b : bool)
| JNumber (lexeme : string)
| JString (s : string)
| JArray (items : list json)
| JObject (members : list (string * json)).

Module JSON.

(** *** [JSON.stringify] on [Folder[]] *)

Definition hex_digit (n : N) : ascii :=
  match n with
  | 0 => "0" | 1 => "1" | 2 => "2" | 3 => "3" | 4 => "4" | 5 => "5"
  | 6 => "6" | 7 => "7" | 8 => "8" | 9 => "9" | 10 => "a" | 11 => "b"
  | 12 => "c" | 13 => "d" | 14 => "e" | _ => "f"
  end%N%char.

(** One character of [QuoteJSONString]: the quote, the backslash and the
    control characters are escaped, everything else is copied. *)
Definition escape_char (c : ascii) : string :=
  if Ascii.eqb c dquote then String "\" (String dquote EmptyString)
  else if Ascii.eqb c "\" then "\\"
  else if Ascii.eqb c "008" then "\b"
  else if Ascii.eqb c "009" then "\t"
  else if Ascii.eqb c "010" then "\n"
  else if Ascii.eqb c "012" then "\f"
  else if Ascii.eqb c "013" then "\r"
  else if (code c <? 32)%N then
    "\u00" +:+ String (hex_digit (code c / 16)) (String (hex_digit (code c mod 16)) EmptyString)
  else String c EmptyString.

Fixpoint escape (s : string) : string :=
  match s with
  | EmptyString => EmptyString
  | String c s' => escape_char c +:+ escape s'
  end.

Definition quote (s : string) : string :=
  String dquote (escape s +:+ String dquote EmptyString).

(** A [Folder] is an object with the keys [name] and [path], in the order
    the object literal of [getFoldersFromPath] gives them. *)
Definition stringify_folder (f : Folder) : string :=
  "{" +:+ quote "name" +:+ ":" +:+ quote (name f) +:+ ","
      +:+ quote "path" +:+ ":" +:+ quote (path f) +:+ "}".

(** [JSON.stringify(folders)]. *)
Definition stringify (folders : list Folder) : string :=
  "[" +:+ Array_join "," (stringify_folder <$> folders) +:+ "]".

(** *** [JSON.parse] *)

Inductive parsed (A : Type) : Type :=
| Parsed (a : A) (rest : string)
| SyntaxError
| OutOfFuel.
Arguments Parsed {A} a rest.
Arguments SyntaxError {A}.
Arguments OutOfFuel {A}.

Definition pmap {A B} (f : A → B) (p : parsed A) : parsed B :=
  match p with
  | Parsed a rest => Parsed (f a) rest
  | SyntaxError => SyntaxError
  | OutOfFuel => OutOfFuel
  end.

Definition is_ws (c : ascii) : bool :=
  Ascii.eqb c " " || Ascii.eqb c "009" || Ascii.eqb c "010" || Ascii.eqb c "013".

Fixpoint skip_ws (s : string) : string :=
  match s with
  | String c s' => if is_ws c then skip_ws s' else s
  | EmptyString => s
  end.

Definition is_digit (c : ascii) : bool := (48 <=? code c)%N && (code c <=? 57)%N.

Definition hex_value (c : ascii) : option N :=
  let n := code c in
  if (48 <=? n)%N && (n <=? 57)%N then Some (n - 48)%N
  else if (97 <=? n)%N && (n <=? 102)%N then Some (n - 87)%N
  else if (65 <=? n)%N && (n <=? 70)%N then Some (n - 55)%N
  else None.

Definition hex4 (a b c d : ascii) : option N :=
  a' ← hex_value a; b' ← hex_value b; c' ← hex_value c; d' ← hex_value d;
  Some (((a' * 16 + b') * 16 + c') * 16 + d')%N.

Definition byte (n : N) : ascii := ascii_of_N n.

(** The UTF-8 bytes of a code point (a lone surrogate is written in the
    same three-byte form). *)
Definition utf8 (cp : N) : string :=
  if (cp <? 128)%N then String (byte cp) EmptyString
  else if (cp <? 2048)%N then
    String (byte (192 + cp / 64)) (String (byte (128 + cp mod 64)) EmptyString)
  else if (cp <? 65536)%N then
    String (byte (224 + cp / 4096))
      (String (byte (128 + (cp / 64) mod 64))
         (String (byte (128 + cp mod 64)) EmptyString))
  else
    String (byte (240 + cp / 262144))
      (String (byte (128 + (cp / 4096) mod 64))
         (String (byte (128 + (cp / 64) mod 64))
            (String (byte (128 + cp mod 64)) EmptyString))).

(** What a string literal is made of: characters copied from the text and
    UTF-16 code units written as [\uXXXX]. *)
Inductive item : Type := Raw (c : ascii) | Unit16 (u : N).

Definition unescape (e : ascii) : option ascii :=
  if Ascii.eqb e dquote then Some dquote
  else if Ascii.eqb e "\" then Some "\"%char
  else if Ascii.eqb e "/" then Some "/"%char
  else if Ascii.eqb e "b" then Some "008"%char
  else if Ascii.eqb e "f" then Some "012"%char
  else if Ascii.eqb e "n" then Some "010"%char
  else if Ascii.eqb e "r" then Some "013"%char
  else if Ascii.eqb e "t" then Some "009"%char
  else None.

(** The items of a string literal, read after its opening quote up to the
    closing one. *)
Fixpoint parse_items (s : string) : parsed (list item) :=
  match s with
  | EmptyString => SyntaxError
  | String c r =>
      if Ascii.eqb c dquote then Parsed [] r
      else if Ascii.eqb c "\" then
        match r with
        | String e r1 =>
            match unescape e with
            | Some ch => pmap (cons (Raw ch)) (parse_items r1)
            | None =>
                if Ascii.eqb e "u" then
                  match r1 with
                  | String h1 (String h2 (String h3 (String h4 r2))) =>
                      match hex4 h1 h2 h3 h4 with
                      | Some u => pmap (cons (Unit16 u)) (parse_items r2)
                      | None => SyntaxError
                      end
                  | _ => SyntaxError
                  end
                else SyntaxError
            end
        | EmptyString => SyntaxError
        end
      else if (code c <? 32)%N then SyntaxError
      else pmap (cons (Raw c)) (parse_items r)
  end.

Definition is_high (u : N) : bool := (55296 <=? u)%N && (u <? 56320)%N.
Definition is_low (u : N) : bool := (56320 <=? u)%N && (u <? 57344)%N.

(** The text of a list of items: an escaped surrogate pair is one code
    point. *)
Fixpoint decode (l : list item) : string :=
  match l with
  | [] => EmptyString
  | Raw c :: l' => String c (decode l')
  | Unit16 hi :: l' =>
      match l' with
      | Unit16 lo :: l'' =>
          if is_high hi && is_low lo then
            utf8 (65536 + (hi - 55296) * 1024 + (lo - 56320)) +:+ decode l''
          else utf8 hi +:+ decode l'
      | _ => utf8 hi +:+ decode l'
      end
  end.

Definition parse_string (s : string) : parsed string := pmap decode (parse_items s).

Fixpoint span_digits (s : string) : string * string :=
  match s with
  | String c r =>
      if is_digit c then let '(d, rest) := span_digits r in (String c d, rest)
      else (EmptyString, s)
  | EmptyString => (EmptyString, s)
  end.

(** One or more digits. *)
Definition digits1 (s : string) : parsed string :=
  match span_digits s with
  | (EmptyString, _) => SyntaxError
  | (d, rest) => Parsed d rest
  end.

(** The text after a leading [c], if the text starts with [c]. *)
Definition after (c : ascii) (s : string) : option string :=
  match s with
  | String c' r => if Ascii.eqb c' c then Some r else None
  | EmptyString => None
  end.

(** A number: an optional minus sign, then [0] or digits that do not
    start with [0], then an optional fraction (a dot and digits) and an
    optional exponent ([e] or [E], an optional sign, digits). *)
Definition parse_number (s : string) : parsed string :=
  let '(sign, s1) :=
    match after "-" s with
    | Some r => ("-", r)
    | None => (EmptyString, s)
    end in
  let int :=
    match after "0" s1 with
    | Some r => Parsed "0" r
    | None => digits1 s1
    end in
  match int with
  | Parsed i s2 =>
      let frac :=
        match after "." s2 with
        | Some r => pmap (String ".") (digits1 r)
        | None => Parsed EmptyString s2
        end in
      match frac with
      | Parsed f s3 =>
          let exp :=
            match s3 with
            | String e r =>
                if Ascii.eqb e "e" || Ascii.eqb e "E" then
                  match r with
                  | String sg r' =>
                      if Ascii.eqb sg "+" || Ascii.eqb sg "-" then
                        pmap (λ d, String e (String sg d)) (digits1 r')
                      else pmap (String e) (digits1 r)
                  | EmptyString => SyntaxError
                  end
                else Parsed EmptyString s3
            | EmptyString => Parsed EmptyString s3
            end in
          pmap (λ x, sign +:+ i +:+ f +:+ x) exp
      | SyntaxError => SyntaxError
      | OutOfFuel => OutOfFuel
      end
  | SyntaxError => SyntaxError
  | OutOfFuel => OutOfFuel
  end.

(** A keyword: the rest of the text must start with it. *)
Definition literal (word : string) (v : json) (s : string) : parsed json :=
  if String.prefix word s
  then Parsed v (substring (String.length word) (String.length s - String.length word) s)
  else SyntaxError.

(** The recursive descent.  Every call reads at least one character before
    it calls again, so fuel for twice the length of the text is never used
    up (see [parse_value_fuel]). *)
Fixpoint parse_value (fuel : nat) (s : string) : parsed json :=
  match fuel with
  | O => OutOfFuel
  | S fuel' =>
      match skip_ws s with
      | EmptyString => SyntaxError
      | String c r =>
          if Ascii.eqb c "{" then
            match after "}" (skip_ws r) with
            | Some r' => Parsed (JObject []) r'
            | None => pmap JObject (parse_members fuel' (skip_ws r))
            end
          else if Ascii.eqb c "[" then
            match after "]" (skip_ws r) with
            | Some r' => Parsed (JArray []) r'
            | None => pmap JArray (parse_elements fuel' (skip_ws r))
            end
          else if Ascii.eqb c dquote then pmap JString (parse_string r)
          else if Ascii.eqb c "t" then literal "rue" (JBool true) r
          else if Ascii.eqb c "f" then literal "alse" (JBool false) r
          else if Ascii.eqb c "n" then literal "ull" JNull r
          else pmap JNumber (parse_number (String c r))
      end
  end
with parse_elements (fuel : nat) (s : string) : parsed (list json) :=
  match fuel with
  | O => OutOfFuel
  | S fuel' =>
      match parse_value fuel' s with
      | Parsed v rest =>
          match skip_ws rest with
          | String c r =>
              if Ascii.eqb c "," then pmap (cons v) (parse_elements fuel' r)
              else if Ascii.eqb c "]" then Parsed [v] r
              else SyntaxError
          | EmptyString => SyntaxError
          end
      | SyntaxError => SyntaxError
      | OutOfFuel => OutOfFuel
      end
  end
with parse_members (fuel : nat) (s : string) : parsed (list (string * json)) :=
  match fuel with
  | O => OutOfFuel
  | S fuel' =>
      match skip_ws s with
      | String q r =>
          if Ascii.eqb q dquote then
            match parse_string r with
            | Parsed k rest =>
                match after ":" (skip_ws rest) with
                | Some r' =>
                    match parse_value fuel' r' with
                    | Parsed v rest' =>
                        match skip_ws rest' with
                        | String c r'' =>
                            if Ascii.eqb c "," then
                              pmap (cons (k, v)) (parse_members fuel' r'')
                            else if Ascii.eqb c "}" then Parsed [(k, v)] r''
                            else SyntaxError
                        | EmptyString => SyntaxError
                        end
                    | SyntaxError => SyntaxError
                    | OutOfFuel => OutOfFuel
                    end
                | None => SyntaxError
                end
            | SyntaxError => SyntaxError
            | OutOfFuel => OutOfFuel
            end
          else SyntaxError
      | EmptyString => SyntaxError
      end
  end.

(** [JSON.parse(text)]: one value, with nothing but white space after it;
    [None] stands for the [SyntaxError] it throws otherwise. *)
Definition parse (text : string) : option json :=
  match parse_value (2 * String.length text + 1) text with
  | Parsed v rest =>
      match skip_ws rest with
      | EmptyString => Some v
      | _ => None
      end
  | _ => None
  end.

End JSON.

(** The value a [Folder] is at run time, and a [Folder[]]. *)
Definition folder_value (f : Folder) : json :=
  JObject [("name", JString (name f)); ("path", JString (path f))].

Definition folders_value (l : list Folder) : json := JArray (folder_value <$> l).

(** ** The world of a command *)

(** A thrown value (or the reason of a rejected promise): an [Error] object
    with its name and message, or any other value, kept as the text
    [String(value)] gives. *)
Inductive thrown : Type :=
| ErrorObject (ename emessage : string)
| Thrown (text : string).

(** [String(error)]. *)
Definition String_ (error : thrown) : string :=
  match error with
  | ErrorObject n m =>
      if bool_decide (n = EmptyString) then m
      else if bool_decide (m = EmptyString) then n
      else n +:+ ": " +:+ m
  | Thrown t => t
  end.

(** [err instanceof Error ? err.message : String(err)]. *)
Definition message_of (err : thrown) : string :=
  match err with
  | ErrorObject _ m => m
  | Thrown t => t
  end.

Module fs.

Inductive FileType : Type := File | Directory | SymbolicLink | Other.

(** [fs.Dirent], as [readdirSync(dir, { withFileTypes: true })] yields
    them: the type is the entry's own, a link is not followed. *)
Record Dirent : Type := mkDirent { name : string; type : FileType }.

Definition isFile (entry : Dirent) : bool :=
  match type entry with File => true | _ => false end.

Definition isDirectory (entry : Dirent) : bool :=
  match type entry with Directory => true | _ => false end.

End fs.

(** A request to the Opener: [open(target, application)] of the Raycast API,
    or a shell command run through [execAsync]. *)
Inductive Launch : Type :=
| Open (target application : string)
| Exec (command : string).

(** What lies outside the process. *)
Record Env : Type := mkEnv {
  (** [process.env.HOME] *)
  HOME : option string;
  (** [fs.existsSync] *)
  existsSync : string → bool;
  (** [fs.readdirSync(dir, { withFileTypes: true })]: the entries in
      enumeration order, or what it throws *)
  readdirSync : string → thrown + list fs.Dirent;
  (** the Opener: given the requests made before, [None] when the promise of
      this one resolves and [Some e] when it rejects with [e] *)
  launch : list Launch → Launch → option thrown;
  (** the items selected in Finder, as [getSelectedFinderItems] returns
      them *)
  finderSelection : list string;
  (** the [SyntaxError] that [JSON.parse] throws on a text *)
  syntaxError : string → thrown
}.

Inductive ToastStyle : Type := Success | Failure.

(** [showToast(style, title, message)]. *)
Record Toast : Type := mkToast {
  style : ToastStyle;
  title : string;
  message : option string
}.

Inductive LogEntry : Type :=
| Warn (text : string)
| Error (text : string) (err : thrown).

(** A request to [LocalStorage]. *)
Inductive StorageOp : Type :=
| SetItem (key value : string)
| RemoveItem (key : string).

(** [interface AppState], the content of the zustand store.  The type of
    [recentFolders] is a parameter: it is [Folder[]] for TypeScript, and
    whatever [JSON.parse] returned once [loadFolders] has stored it. *)
Record AppState (R : Type) : Type := mkAppState {
  folders : list Folder;
  recentFolders : R;
  isLoading : bool
}.
Arguments mkAppState {R} _ _ _.
Arguments folders {R} _.
Arguments recentFolders {R} _.
Arguments isLoading {R} _.

(** The world: the store, the persisted [LocalStorage] with the requests
    whose promise nobody awaits, and what the command has shown, logged and
    launched so far. *)
Record World (R : Type) : Type := mkWorld {
  store : AppState R;
  storage : gmap string string;
  inflight : list StorageOp;
  toasts : list Toast;
  console : list LogEntry;
  launched : list Launch
}.
Arguments mkWorld {R} _ _ _ _ _ _.
Arguments store {R} _.
Arguments storage {R} _.
Arguments inflight {R} _.
Arguments toasts {R} _.
Arguments console {R} _.
Arguments launched {R} _.

(** A call returns or throws. *)
Inductive completion (A : Type) : Type :=
| Normal (a : A)
| Throw (e : thrown).
Arguments Normal {A} a.
Arguments Throw {A} e.

(** Commands: state passing with exceptions. *)
Definition M (R A : Type) : Type := World R → completion A * World R.

#[export] Instance M_ret {R} : MRet (M R) := λ A a w, (Normal a, w).

#[export] Instance M_bind {R} : MBind (M R) := λ A B f m w,
  match m w with
  | (Normal a, w') => f a w'
  | (Throw e, w') => (Throw e, w')
  end.

Section Commands.
Context {R : Type}.

Definition throw {A} (e : thrown) : M R A := λ w, (Throw e, w).

(** [try { body } catch (e) { handler }]. *)
Definition try_catch {A} (body : M R A) (handler : thrown → M R A) : M R A :=
  λ w, match body w with
       | (Normal a, w') => (Normal a, w')
       | (Throw e, w') => handler e w'
       end.

(** [try { body } finally { final }]. *)
Definition try_finally {A} (body : M R A) (final : M R unit) : M R A :=
  λ w, let '(r, w') := body w in
       match final w' with
       | (Normal _, w'') => (r, w'')
       | (Throw e, w'') => (Throw e, w'')
       end.

(** [for (const x of xs) { body }]. *)
Fixpoint for_of {A} (xs : list A) (body : A → M R unit) : M R unit :=
  match xs with
  | [] => mret tt
  | x :: xs' => body x;; for_of xs' body
  end.

(** [xs.flatMap(f)]. *)
Fixpoint flatMap {A B} (f : A → M R (list B)) (xs : list A) : M R (list B) :=
  match xs with
  | [] => mret []
  | x :: xs' => ys ← f x; zs ← flatMap f xs'; mret (ys ++ zs)
  end.

(** The zustand store: [get] and [set]. *)
Definition getState : M R (AppState R) := λ w, (Normal (store w), w).

Definition setState (f : AppState R → AppState R) : M R unit :=
  λ w, (Normal tt,
        mkWorld (f (store w)) (storage w) (inflight w) (toasts w) (console w)
          (launched w)).

(** [showToast(style, title, message)]: the toast is on the screen; its
    promise is taken to resolve. *)
Definition showToast (s : ToastStyle) (t : string) (m : option string) : M R unit :=
  λ w, (Normal tt,
        mkWorld (store w) (storage w) (inflight w) (toasts w ++ [mkToast s t m])
          (console w) (launched w)).

Definition console_log (entry : LogEntry) : M R unit :=
  λ w, (Normal tt,
        mkWorld (store w) (storage w) (inflight w) (toasts w)
          (console w ++ [entry]) (launched w)).

(** A request to the Opener, awaited. *)
Definition request (env : Env) (l : Launch) : M R unit :=
  λ w, (match launch env (launched w) l with
        | None => Normal tt
        | Some e => Throw e
        end,
        mkWorld (store w) (storage w) (inflight w) (toasts w) (console w)
          (launched w ++ [l])).

(** [await open(target, application)]. *)
Definition open (env : Env) (target application : string) : M R unit :=
  request env (Open target application).

(** [await execAsync(command)], its output dropped. *)
Definition execAsync (env : Env) (command : string) : M R unit :=
  request env (Exec command).

(** [JSON.parse(text)]. *)
Definition JSON_parse (env : Env) (text : string) : M R json :=
  match JSON.parse text with
  | Some v => mret v
  | None => throw (syntaxError env text)
  end.

End Commands.

Module LocalStorage.
Section LocalStorage.
Context {R : Type}.

(** A request whose promise is dropped: it is in flight when the call
    returns. *)
Definition send (op : StorageOp) : M R unit :=
  λ w, (Normal tt,
        mkWorld (store w) (storage w) (inflight w ++ [op]) (toasts w) (console w)
          (launched w)).

(** [LocalStorage.setItem(key, value)], not awaited. *)
Definition setItem (key value : string) : M R unit := send (SetItem key value).

(** [LocalStorage.removeItem(key)], not awaited. *)
Definition removeItem (key : string) : M R unit := send (RemoveItem key).

(** [await LocalStorage.getItem<string>(key)]: what has reached the storage
    under the key, [None] for [undefined]. *)
Definition getItem (key : string) : M R (option string) :=
  λ w, (Normal (storage w !! key), w).

Definition apply (st : gmap string string) (op : StorageOp) : gmap string string :=
  match op with
  | SetItem key value => <[key := value]> st
  | RemoveItem key => delete key st
  end.

(** The requests in flight reach the storage, in the order they were
    made. *)
Definition settle (w : World R) : World R :=
  mkWorld (store w) (foldl apply (storage w) (inflight w)) [] (toasts w)
    (console w) (launched w).

End LocalStorage.
End LocalStorage.

(** The extension starts afresh: a new store, the storage as it was
    persisted; a request still in flight when the old process ended is
    lost. *)
Definition restart {R R'} (initialState : AppState R') (w : World R) : World R' :=
  mkWorld initialState (storage w) [] [] [] [].

(** A value is truthy: for a string, that it is not empty. *)
Definition truthy (s : string) : bool := negb (bool_decide (s = EmptyString)).

(** [fs.readdirSync(dirPath, { withFileTypes: true })] inside a command. *)
Definition readdir {R} (env : Env) (dirPath : string) : M R (list fs.Dirent) :=
  match readdirSync env dirPath with
  | inl e => throw e
  | inr entries => mret entries
  end.

(** ** [src/open-in-cursor.tsx]: folders under [~/Documents] *)

Module OpenInCursor.
Section OpenInCursor.
Context (env : Env).

Definition RECENT_FOLDERS_KEY : string := "recentFolders".
Definition MAX_RECENT_FOLDERS : nat := 10.

(** [process.env.HOME], or the empty string when it is unset or empty. *)
Definition HOME_DIR : string :=
  match HOME env with
  | Some h => if truthy h then h else EmptyString
  | None => EmptyString
  end.

Definition DOCUMENTS_DIR : string := path.join [HOME_DIR; "Documents"].

Definition SEARCH_PATHS : list string :=
  [ path.join [DOCUMENTS_DIR; "Projects"];
    path.join [DOCUMENTS_DIR; "raycast-extensions"];
    path.join [DOCUMENTS_DIR; "test-code"] ].

(** The store as [create] builds it; [empty] is [[]]. *)
Definition initialState {R} (empty : R) : AppState R := mkAppState [] empty true.

Definition setFolders {R} (folders : list Folder) : M R unit :=
  setState (λ state, mkAppState folders (recentFolders state) (isLoading state)).

Definition setRecentFolders {R} (recentFolders : R) : M R unit :=
  setState (λ state, mkAppState (folders state) recentFolders (isLoading state)).

Definition setIsLoading {R} (isLoading : bool) : M R unit :=
  setState (λ state, mkAppState (folders state) (recentFolders state) isLoading).

(** [[folder, ...recentFolders.filter((f) => f.path !== folder.path)]
      .slice(0, MAX_RECENT_FOLDERS)]. *)
Definition updatedRecentFolders (folder : Folder) (recentFolders : list Folder)
  : list Folder :=
  take MAX_RECENT_FOLDERS
    (folder :: filter (λ f, path f ≠ path folder) recentFolders).

Definition addRecentFolder (folder : Folder) : M (list Folder) unit :=
  state ← getState;
  let updatedRecentFolders := updatedRecentFolders folder (recentFolders state) in
  LocalStorage.setItem RECENT_FOLDERS_KEY (JSON.stringify updatedRecentFolders);;
  setState (λ state, mkAppState (folders state) updatedRecentFolders (isLoading state)).

Definition getFoldersFromPath {R} (dirPath : string) : M R (list Folder) :=
  try_catch
    (if negb (existsSync env dirPath) then
       console_log (Warn ("Path does not exist: " +:+ dirPath));;
       mret []
     else
       entries ← readdir env dirPath;
       mret ((λ entry, mkFolder (fs.name entry) (path.join [dirPath; fs.name entry]))
               <$> filter (λ entry, fs.isDirectory entry) entries))
    (λ err,
       console_log (Error ("Error reading directory " +:+ dirPath +:+ ":") err);;
       mret []).

(** The effect that runs once when the command is mounted.  The value of
    [JSON.parse] goes into the store as it is. *)
Definition loadFolders : M json unit :=
  try_finally
    (try_catch
       (allFolders ← flatMap getFoldersFromPath SEARCH_PATHS;
        setFolders allFolders;;
        storedRecentFolders ← LocalStorage.getItem RECENT_FOLDERS_KEY;
        match storedRecentFolders with
        | Some stored =>
            if truthy stored then
              parsed ← JSON_parse env stored;
              setRecentFolders parsed
            else mret tt
        | None => mret tt
        end)
       (λ err, showToast Failure "Error reading folders" (Some (message_of err))))
    (setIsLoading false).

Definition openInCursor (folder : Folder) : M (list Folder) unit :=
  try_catch
    (open env (path folder) "Cursor";;
     showToast Success "Opened in Cursor" (Some (path folder));;
     addRecentFolder folder)
    (λ error, showToast Failure "Failed to open in Cursor" (Some (String_ error))).

(** [recentSet] is a [Set] of paths. *)
Definition otherFolders (recentFolders folders : list Folder) : list Folder :=
  let recentSet : gset string := list_to_set (path <$> recentFolders) in
  filter (λ f, path f ∉ recentSet) folders.

End OpenInCursor.
End OpenInCursor.

(** ** The folder browser for [~/Work], with workspace files and the clear
       action *)

Module OpenInCursorWork.
Section OpenInCursorWork.
Context (env : Env).

Definition RECENT_FOLDERS_KEY : string := "recentFolders".
Definition MAX_RECENT_FOLDERS : nat := 10.

(** [process.env.HOME], or the empty string when it is unset or empty. *)
Definition HOME_DIR : string :=
  match HOME env with
  | Some h => if truthy h then h else EmptyString
  | None => EmptyString
  end.

Definition WORK_DIR : string := path.join [HOME_DIR; "Work"].

Definition SEARCH_PATHS : list string :=
  [ path.join [WORK_DIR; "bmads"];
    path.join [WORK_DIR; "pet-projects"];
    path.join [WORK_DIR; "projects"];
    path.join [WORK_DIR; "raycast-extensions"] ].

Definition initialState {R} (empty : R) : AppState R := mkAppState [] empty true.

Definition setFolders {R} (folders : list Folder) : M R unit :=
  setState (λ state, mkAppState folders (recentFolders state) (isLoading state)).

Definition setRecentFolders {R} (recentFolders : R) : M R unit :=
  setState (λ state, mkAppState (folders state) recentFolders (isLoading state)).

Definition setIsLoading {R} (isLoading : bool) : M R unit :=
  setState (λ state, mkAppState (folders state) (recentFolders state) isLoading).

Definition updatedRecentFolders (folder : Folder) (recentFolders : list Folder)
  : list Folder :=
  take MAX_RECENT_FOLDERS
    (folder :: filter (λ f, path f ≠ path folder) recentFolders).

Definition addRecentFolder (folder : Folder) : M (list Folder) unit :=
  state ← getState;
  let updatedRecentFolders := updatedRecentFolders folder (recentFolders state) in
  LocalStorage.setItem RECENT_FOLDERS_KEY (JSON.stringify updatedRecentFolders);;
  setState (λ state, mkAppState (folders state) updatedRecentFolders (isLoading state)).

Definition clearRecentFolders : M (list Folder) unit :=
  LocalStorage.removeItem RECENT_FOLDERS_KEY;;
  setState (λ state, mkAppState (folders state) [] (isLoading state)).

Definition getFoldersFromPath {R} (dirPath : string) : M R (list Folder) :=
  try_catch
    (if negb (existsSync env dirPath) then
       console_log (Warn ("Path does not exist: " +:+ dirPath));;
       mret []
     else
       entries ← readdir env dirPath;
       mret ((λ entry, mkFolder (fs.name entry) (path.join [dirPath; fs.name entry]))
               <$> filter (λ entry, fs.isDirectory entry) entries))
    (λ err,
       console_log (Error ("Error reading directory " +:+ dirPath +:+ ":") err);;
       mret []).

Definition loadFolders : M json unit :=
  try_finally
    (try_catch
       (allFolders ← flatMap getFoldersFromPath SEARCH_PATHS;
        setFolders allFolders;;
        storedRecentFolders ← LocalStorage.getItem RECENT_FOLDERS_KEY;
        match storedRecentFolders with
        | Some stored =>
            if truthy stored then
              parsed ← JSON_parse env stored;
              setRecentFolders parsed
            else mret tt
        | None => mret tt
        end)
       (λ err, showToast Failure "Error reading folders" (Some (message_of err))))
    (setIsLoading false).

Definition findWorkspaceFileInFolder {R} (folderPath : string) : M R (option string) :=
  try_catch
    (if negb (existsSync env folderPath) then mret None
     else
       entries ← readdir env folderPath;
       let workspaceFile :=
         find (λ entry, fs.isFile entry && endsWith (fs.name entry) ".code-workspace")
           entries in
       mret (match workspaceFile with
             | Some file => Some (path.join [folderPath; fs.name file])
             | None => None
             end))
    (λ error,
       console_log
         (Error ("Error checking for workspace file in " +:+ folderPath +:+ ":") error);;
       mret None).

(** The shell command [cursor "<target>"]. *)
Definition cursor (target : string) : string :=
  "cursor " +:+ String dquote (target +:+ String dquote EmptyString).

Definition openInCursor (folder : Folder) : M (list Folder) unit :=
  try_catch
    (workspaceFile ← findWorkspaceFileInFolder (path folder);
     match workspaceFile with
     | Some file =>
         if truthy file then
           execAsync env (cursor file);;
           showToast Success "Opened workspace in Cursor" (Some file)
         else
           execAsync env (cursor (path folder));;
           showToast Success "Opened in Cursor" (Some (path folder))
     | None =>
         execAsync env (cursor (path folder));;
         showToast Success "Opened in Cursor" (Some (path folder))
     end;;
     addRecentFolder folder)
    (λ error, showToast Failure "Failed to open in Cursor" (Some (String_ error))).

Definition handleClearRecentFolders : M (list Folder) unit :=
  clearRecentFolders;;
  showToast Success "Recent folders cleared" None.

Definition otherFolders (recentFolders folders : list Folder) : list Folder :=
  let recentSet : gset string := list_to_set (path <$> recentFolders) in
  filter (λ f, path f ∉ recentSet) folders.

End OpenInCursorWork.
End OpenInCursorWork.

(** ** The command that opens the Finder selection *)

Module OpenFinderSelection.
Section OpenFinderSelection.
Context (env : Env) {R : Type}.

(** The AppleScript query and the splitting of its output are the
    environment's; the function catches what they throw and always returns
    a list. *)
Definition getSelectedFinderItems : M R (list string) := mret (finderSelection env).

Definition Command : M R unit :=
  try_catch
    (items ← getSelectedFinderItems;
     if bool_decide (List.length items = 0) then
       showToast Failure "No items selected"
         (Some "Please select a file or folder in Finder")
     else
       for_of items (λ itemPath,
         try_catch (open env itemPath "Cursor")
           (λ error, console_log (Error ("Error opening " +:+ itemPath +:+ ":") error)));;
       let item0 := default EmptyString (items !! 0) in
       let itemType :=
         if bool_decide (List.length items = 1)
         then (if endsWith item0 "/" then "folder" else "file")
         else "items" in
       showToast Success
         ("Opened " +:+ pretty (List.length items) +:+ " " +:+ itemType +:+ " in Cursor")
         (Some (if bool_decide (List.length items = 1) then item0
                else pretty (List.length items) +:+ " items opened")))
    (λ error,
       showToast Failure "Failed to get Finder selection" (Some (message_of error))).

End OpenFinderSelection.
End OpenFinderSelection.


(** ** Descriptions used in the statements *)

(** The shape TypeScript declares for [recentFolders], read off a value:
    [obj[key]] for an object that [JSON.parse] built (of two members with
    the same key the later one is kept), an object with a string [name] and
    a string [path], an array of such objects. *)
Fixpoint member (key : string) (members : list (string * json)) : option json :=
  match members with
  | [] => None
  | (k, v) :: members' =>
      match member key members' with
      | Some v' => Some v'
      | None => if bool_decide (k = key) then Some v else None
      end
  end.

Definition is_folder (v : json) : bool :=
  match v with
  | JObject members =>
      match member "name" members, member "path" members with
      | Some (JString _), Some (JString _) => true
      | _, _ => false
      end
  | _ => false
  end.

Definition is_folder_list (v : json) : bool :=
  match v with
  | JArray items => forallb is_folder items
  | _ => false
  end.

(** The world after [addRecentFolder]: the list replaced, the request to
    write it in flight. *)
Definition recorded (key : string) (updated : list Folder) (w : World (list Folder))
  : World (list Folder) :=
  mkWorld (mkAppState (folders (store w)) updated (isLoading (store w)))
    (storage w) (inflight w ++ [SetItem key (JSON.stringify updated)])
    (toasts w) (console w) (launched w).

(** The world with more lines on the console. *)
Definition logged {R} (entries : list LogEntry) (w : World R) : World R :=
  mkWorld (store w) (storage w) (inflight w) (toasts w) (console w ++ entries)
    (launched w).

(** The world after [loadFolders]. *)
Definition loaded (fs : list Folder) (recent : json) (shown : list Toast)
    (entries : list LogEntry) (w : World json) : World json :=
  mkWorld (mkAppState fs recent false) (storage w) (inflight w) (toasts w ++ shown)
    (console w ++ entries) (launched w).

(** The world after a request to the Opener and the toasts that follow. *)
Definition requested {R} (l : Launch) (shown : list Toast) (w : World R) : World R :=
  mkWorld (store w) (storage w) (inflight w) (toasts w ++ shown) (console w)
    (launched w ++ [l]).

Definition failure_toast (e : thrown) : Toast :=
  mkToast Failure "Failed to open in Cursor" (Some (String_ e)).

(** The folders [getFoldersFromPath] makes of the entries of a directory. *)
Definition subfolders (dirPath : string) (entries : list fs.Dirent) : list Folder :=
  (λ entry, mkFolder (fs.name entry) (path.join [dirPath; fs.name entry]))
    <$> filter (λ entry, fs.isDirectory entry) entries.

(** The test of [findWorkspaceFileInFolder], and the path it returns. *)
Definition is_workspace_file (entry : fs.Dirent) : bool :=
  fs.isFile entry && endsWith (fs.name entry) ".code-workspace".

Definition workspaceFile (env : Env) (folderPath : string) : option string :=
  if existsSync env folderPath then
    match readdirSync env folderPath with
    | inr entries =>
        (λ file, path.join [folderPath; fs.name file]) <$> find is_workspace_file entries
    | inl _ => None
    end
  else None.

(** What [openInCursor] of the Work browser hands to [cursor], and the toast
    it shows when the command succeeds. *)
Definition openTarget (env : Env) (folder : Folder) : string :=
  match workspaceFile env (path folder) with
  | Some file => if truthy file then file else path folder
  | None => path folder
  end.

Definition success_toast (env : Env) (folder : Folder) : Toast :=
  match workspaceFile env (path folder) with
  | Some file =>
      if truthy file then mkToast Success "Opened workspace in Cursor" (Some file)
      else mkToast Success "Opened in Cursor" (Some (path folder))
  | None => mkToast Success "Opened in Cursor" (Some (path folder))
  end.

(** One turn of the loop of [Command], and the toast [Command] ends with. *)
Definition attempt {R} (env : Env) (itemPath : string) : M R unit :=
  try_catch (open env itemPath "Cursor")
    (λ error, console_log (Error ("Error opening " +:+ itemPath +:+ ":") error)).

(** The console lines of the launches of [items] that fail, the requests
    [history] having been made before. *)
Fixpoint failures (env : Env) (history : list Launch) (items : list string)
  : list LogEntry :=
  match items with
  | [] => []
  | itemPath :: items' =>
      match launch env history (Open itemPath "Cursor") with
      | Some error => [Error ("Error opening " +:+ itemPath +:+ ":") error]
      | None => []
      end ++ failures env (history ++ [Open itemPath "Cursor"]) items'
  end.

Definition summary (items : list string) : Toast :=
  let item0 := default EmptyString (items !! 0) in
  let itemType :=
    if bool_decide (List.length items = 1)
    then (if endsWith item0 "/" then "folder" else "file")
    else "items" in
  mkToast Success
    ("Opened " +:+ pretty (List.length items) +:+ " " +:+ itemType +:+ " in Cursor")
    (Some (if bool_decide (List.length items = 1) then item0
           else pretty (List.length items) +:+ " items opened")).

(** What [JSON.parse] reads for a character as [JSON.stringify] wrote it: a
    control character without a short escape comes back as a code unit. *)
Definition short_escape (c : ascii) : bool :=
  Ascii.eqb c "008" || Ascii.eqb c "009" || Ascii.eqb c "010"
  || Ascii.eqb c "012" || Ascii.eqb c "013".

Definition item_of (c : ascii) : JSON.item :=
  if (code c <? 32)%N && negb (short_escape c) then JSON.Unit16 (code c) else JSON.Raw c.

Fixpoint items_of (s : string) : list JSON.item :=
  match s with
  | EmptyString => []
  | String c s' => item_of c :: items_of s'
  end.

(** A parser has not run out of fuel, and has left at most [k] characters
    if it has read something. *)
Definition within {A} (k : nat) (p : JSON.parsed A) : Prop :=
  match p with
  | JSON.Parsed _ rest => String.length rest ≤ k
  | JSON.SyntaxError => True
  | JSON.OutOfFuel => False
  end.

(** ** Examples *)

(** A process that has just started, over a given storage. *)
Definition startup {R} (empty : R) (st : gmap string string) : World R :=
  mkWorld (OpenInCursor.initialState empty) st [] [] [] [].

(** An environment: a home directory, the directory [/tmp/A] with the
    folders [x] and [y] and the file [z.txt], in [x] two workspace files
    after a file of notes, and an Opener that refuses the targets in
    [refused]. *)
Definition example_env (refused : list string) (selection : list string) : Env :=
  mkEnv (Some "/Users/me")
    (λ p, bool_decide (p ∈ ["/tmp/A"; "/tmp/A/x"; "/tmp/A/y"]))
    (λ p,
       if bool_decide (p = "/tmp/A") then
         inr [fs.mkDirent "x" fs.Directory; fs.mkDirent "y" fs.Directory;
              fs.mkDirent "z.txt" fs.File]
       else if bool_decide (p = "/tmp/A/x") then
         inr [fs.mkDirent "notes.md" fs.File; fs.mkDirent "x.code-workspace" fs.File;
              fs.mkDirent "old.code-workspace" fs.File]
       else if bool_decide (p = "/tmp/A/y") then inr []
       else inl (ErrorObject "Error" "ENOENT: no such file or directory"))
    (λ _ l,
       match l with
       | Open target _ =>
           if bool_decide (target ∈ refused)
           then Some (ErrorObject "Error" "Command failed") else None
       | Exec command =>
           if bool_decide (command ∈ OpenInCursorWork.cursor <$> refused)
           then Some (ErrorObject "Error" "Command failed") else None
       end)
    selection
    (λ _, ErrorObject "SyntaxError" "Unexpected token").

Definition folder_x : Folder := mkFolder "x" "/tmp/A/x".
Definition folder_y : Folder := mkFolder "y" "/tmp/A/y".

(** Eleven folders with eleven paths. *)
Definition eleven : list Folder :=
  (λ n, mkFolder (pretty n) ("/tmp/B/" +:+ pretty n)) <$> seq 0 11.

(** ** More of the code *)

(** What the user does in the Work browser: "Open in Cursor" on a folder,
    "Clear Recent Folders". *)
Inductive WorkAction : Type :=
| OpenFolder (folder : Folder)
| ClearRecentFolders.

Definition perform (env : Env) (action : WorkAction) : M (list Folder) unit :=
  match action with
  | OpenFolder folder => OpenInCursorWork.openInCursor env folder
  | ClearRecentFolders => OpenInCursorWork.handleClearRecentFolders
  end.

(** The folders opened by a list of actions. *)
Definition opened (actions : list WorkAction) : list Folder :=
  actions ≫= λ action,
    match action with
    | OpenFolder folder => [folder]
    | ClearRecentFolders => []
    end.

(** What the key [recentFolders] holds once the requests in flight have
    reached the storage. *)
Definition persisted {R} (w : World R) : option string :=
  storage (LocalStorage.settle w) !! "recentFolders".

(** The storage is in step with the store: what is persisted is JSON for
    the recent list of the store, and nothing is persisted only when that
    list is empty. *)
Definition in_step (w : World (list Folder)) : Prop :=
  match persisted w with
  | Some text => JSON.parse text = Some (folders_value (recentFolders (store w)))
  | None => recentFolders (store w) = []
  end.

(** What [getFoldersFromPath] returns for a directory and what it writes on
    the console: nothing for a directory that is missing or cannot be
    read. *)
Definition scanned (env : Env) (dirPath : string) : list Folder :=
  if existsSync env dirPath then
    match readdirSync env dirPath with
    | inr entries => subfolders dirPath entries
    | inl _ => []
    end
  else [].

Definition scan_log (env : Env) (dirPath : string) : list LogEntry :=
  if existsSync env dirPath then
    match readdirSync env dirPath with
    | inr _ => []
    | inl err => [Error ("Error reading directory " +:+ dirPath +:+ ":") err]
    end
  else [Warn ("Path does not exist: " +:+ dirPath)].

(** *** [getSelectedFinderItems], over the result of the [osascript] call *)

Module FinderSelection.

(** The white space and line terminators of ECMAScript, as UTF-8: TAB, LF,
    VT, FF, CR and SP in one byte; U+00A0 in two; U+1680, U+2000 to U+200A,
    U+2028, U+2029, U+202F, U+205F, U+3000 and U+FEFF in three. *)
Definition space1 (c : ascii) : bool :=
  ((9 <=? code c) && (code c <=? 13) || (code c =? 32))%N.

Definition space2 (c1 c2 : ascii) : bool :=
  ((code c1 =? 194) && (code c2 =? 160))%N.

Definition space3 (c1 c2 c3 : ascii) : bool :=
  ((code c1 =? 225) && (code c2 =? 154) && (code c3 =? 128)
   || (code c1 =? 226) && (code c2 =? 128)
      && ((128 <=? code c3) && (code c3 <=? 138)
          || (code c3 =? 168) || (code c3 =? 169) || (code c3 =? 175))
   || (code c1 =? 226) && (code c2 =? 129) && (code c3 =? 159)
   || (code c1 =? 227) && (code c2 =? 128) && (code c3 =? 128)
   || (code c1 =? 239) && (code c2 =? 187) && (code c3 =? 191))%N.

(** [s.trimStart()]. *)
Fixpoint trimStart (s : string) : string :=
  match s with
  | String c1 r1 =>
      if space1 c1 then trimStart r1
      else
        match r1 with
        | String c2 r2 =>
            if space2 c1 c2 then trimStart r2
            else
              match r2 with
              | String c3 r3 => if space3 c1 c2 c3 then trimStart r3 else s
              | EmptyString => s
              end
        | EmptyString => s
        end
  | EmptyString => s
  end.

(** [s.trimEnd()]: from the end, what is white space only is dropped. *)
Fixpoint trimEnd (s : string) : string :=
  match s with
  | String c r =>
      let kept := String c (trimEnd r) in
      if bool_decide (trimStart kept = EmptyString) then EmptyString else kept
  | EmptyString => EmptyString
  end.

(** [s.trim()]. *)
Definition trim (s : string) : string := trimEnd (trimStart s).

(** The line feed, U+000A. *)
Definition newline : ascii := "010"%char.

(** The function from its [try] on; [result] is what
    [await execAsync(...)] gives: the rejection, or [stdout]. *)
Definition getSelectedFinderItems {R} (result : thrown + string) : M R (list string) :=
  try_catch
    (stdout ← match result with
              | inl e => throw e
              | inr out => mret out
              end;
     let output := trim stdout in
     if negb (truthy output) || (String.length output =? 0) then mret []
     else
       let paths :=
         filter (λ path, 0 < String.length path) (trim <$> String_split newline output) in
       mret paths)
    (λ error,
       console_log (Error "Error getting Finder selection:" error);;
       mret []).

End FinderSelection.

(** *** Descriptions used in the statements about them *)

(** What a restarted process loads: the value of the persisted text. *)
Definition reloaded_value {R} (w : World R) : json :=
  match persisted w with
  | Some text =>
      if truthy text then default (JArray []) (JSON.parse text) else JArray []
  | None => JArray []
  end.

(** What follows one leading white-space character of [s], if [s] starts
    with one. *)
Definition lead (s : string) : option string :=
  match s with
  | String c1 r1 =>
      if FinderSelection.space1 c1 then Some r1
      else
        match r1 with
        | String c2 r2 =>
            if FinderSelection.space2 c1 c2 then Some r2
            else
              match r2 with
              | String c3 r3 => if FinderSelection.space3 c1 c2 c3 then Some r3 else None
              | EmptyString => None
              end
        | EmptyString => None
        end
  | EmptyString => None
  end.

(** [s.includes(c)] for a character. *)
Fixpoint includes (s : string) (c : ascii) : bool :=
  match s with
  | String c' s' => Ascii.eqb c' c || includes s' c
  | EmptyString => false
  end.

(** A line of the output that comes back as it is: not empty, no white
    space at either end, no line feed inside. *)
Definition clean (line : string) : Prop :=
  line ≠ EmptyString ∧ FinderSelection.trim line = line
  ∧ includes line FinderSelection.newline = false.

(** The line feed as a string, the separator of the script's output. *)
Definition linefeed : string := String FinderSelection.newline EmptyString.

(** A folder that [Q] describes is among the first [k + 1] entries. *)
Definition held (Q : Folder → Prop) (k : nat) (recent : list Folder) : Prop :=
  ∃ i f, i ≤ k ∧ recent !! i = Some f ∧ Q f.

(** * Facts *)

(** ** The model at work *)

Example join_root_and_name : path.join ["/tmp/A"; "x"] = "/tmp/A/x".
Proof. reflexivity. Qed.

Example join_without_home : path.join [EmptyString; "Documents"] = "Documents".
Proof. reflexivity. Qed.

Example join_normalizes : path.join ["/a/b/"; "../c/./d//"] = "/a/c/d/".
Proof. reflexivity. Qed.

Example join_above_root : path.join ["/a"; "../../b"] = "/b" ∧ path.join ["a"; "../../b"] = "../b".
Proof. split; reflexivity. Qed.

Example search_paths_of_home :
  OpenInCursor.SEARCH_PATHS (example_env [] [])
  = ["/Users/me/Documents/Projects"; "/Users/me/Documents/raycast-extensions";
     "/Users/me/Documents/test-code"]
  ∧ OpenInCursorWork.SEARCH_PATHS (example_env [] [])
    = ["/Users/me/Work/bmads"; "/Users/me/Work/pet-projects"; "/Users/me/Work/projects";
       "/Users/me/Work/raycast-extensions"].
Proof. split; reflexivity. Qed.

Example parse_values :
  JSON.parse " [1, -2.5e+10, true, null, {}, [ ]] "
  = Some (JArray [JNumber "1"; JNumber "-2.5e+10"; JBool true; JNull; JObject []; JArray []]).
Proof. reflexivity. Qed.

Example parse_refuses :
  JSON.parse EmptyString = None ∧ JSON.parse "[1,]" = None ∧ JSON.parse "01" = None
  ∧ JSON.parse "nul" = None ∧ JSON.parse "null x" = None ∧ JSON.parse "{not json" = None.
Proof. repeat split; reflexivity. Qed.

Example stringify_then_parse :
  JSON.parse (JSON.stringify [folder_x; folder_y]) = Some (folders_value [folder_x; folder_y])
  ∧ is_folder_list (folders_value [folder_x; folder_y]) = true.
Proof. split; reflexivity. Qed.

Example String_of_error :
  String_ (ErrorObject "Error" "Command failed") = "Error: Command failed"
  ∧ String_ (ErrorObject "Error" EmptyString) = "Error"
  ∧ String_ (Thrown "boom") = "boom".
Proof. repeat split; reflexivity. Qed.

(** ** Strings and JSON *)

Lemma append_cons (x : ascii) (a b : string) : String x a +:+ b = String x (a +:+ b).
Proof. reflexivity. Qed.

Lemma append_nil_l (b : string) : EmptyString +:+ b = b.
Proof. reflexivity. Qed.

Lemma append_assoc (a b c : string) : (a +:+ b) +:+ c = a +:+ (b +:+ c).
Proof. induction a as [|x a IH]; [done | by rewrite !append_cons, IH]. Qed.

Section JSONRoundTrip.
Import JSON.

Lemma parse_items_escape_char c r :
  parse_items (escape_char c +:+ r) = pmap (cons (item_of c)) (parse_items r).
Proof. destruct c as [[] [] [] [] [] [] [] []]; reflexivity. Qed.

Lemma parse_items_escape s rest :
  parse_items (escape s +:+ String dquote rest) = Parsed (items_of s) rest.
Proof.
  induction s as [|c s IH]; [reflexivity|].
  cbn [escape]. rewrite append_assoc, parse_items_escape_char, IH. reflexivity.
Qed.

Lemma item_of_decode c :
  match item_of c with
  | Raw c' => c' = c
  | Unit16 u => is_high u = false ∧ utf8 u = String c EmptyString
  end.
Proof. destruct c as [[] [] [] [] [] [] [] []]; vm_compute; auto. Qed.

Lemma decode_Unit16 u l :
  is_high u = false → decode (Unit16 u :: l) = utf8 u +:+ decode l.
Proof. intros H. destruct l as [|[] l]; cbn [decode]; rewrite ?H; reflexivity. Qed.

Lemma decode_items s : decode (items_of s) = s.
Proof.
  induction s as [|c s IH]; [reflexivity|].
  cbn [items_of]. pose proof (item_of_decode c) as Hc.
  destruct (item_of c) as [c'|u].
  - subst c'. cbn [decode]. by rewrite IH.
  - destruct Hc as [Hh Hu]. rewrite decode_Unit16, Hu, IH by done. reflexivity.
Qed.

Lemma parse_string_quote s rest :
  parse_string (escape s +:+ String dquote rest) = Parsed s rest.
Proof. unfold parse_string. rewrite parse_items_escape. cbn [pmap]. by rewrite decode_items. Qed.

Lemma parse_value_dquote fuel r :
  parse_value (S fuel) (String dquote r) = pmap JString (parse_string r).
Proof. reflexivity. Qed.

Lemma parse_value_brace fuel r :
  parse_value (S fuel) (String "{" (String dquote r))
  = pmap JObject (parse_members fuel (String dquote r)).
Proof. reflexivity. Qed.

Lemma parse_members_dquote fuel r :
  parse_members (S fuel) (String dquote r)
  = match parse_string r with
    | Parsed k rest =>
        match after ":" (skip_ws rest) with
        | Some r' =>
            match parse_value fuel r' with
            | Parsed v rest' =>
                match skip_ws rest' with
                | String c r'' =>
                    if Ascii.eqb c "," then pmap (cons (k, v)) (parse_members fuel r'')
                    else if Ascii.eqb c "}" then Parsed [(k, v)] r''
                    else SyntaxError
                | EmptyString => SyntaxError
                end
            | SyntaxError => SyntaxError
            | OutOfFuel => OutOfFuel
            end
        | None => SyntaxError
        end
    | SyntaxError => SyntaxError
    | OutOfFuel => OutOfFuel
    end.
Proof. reflexivity. Qed.


(** A member with a string value, followed by a comma. *)
Lemma parse_members_more fuel k v rest :
  parse_members (S (S fuel)) (quote k +:+ ":" +:+ quote v +:+ "," +:+ rest)
  = pmap (cons (k, JString v)) (parse_members (S fuel) rest).
Proof.
  unfold quote. repeat first [rewrite append_assoc | rewrite append_cons | rewrite append_nil_l].
  rewrite parse_members_dquote, parse_string_quote. cbn [after skip_ws is_ws Ascii.eqb Bool.eqb orb andb pmap].
  rewrite parse_value_dquote, parse_string_quote. cbn [after skip_ws is_ws Ascii.eqb Bool.eqb orb andb pmap]. reflexivity.
Qed.

(** The last member, with a string value. *)
Lemma parse_members_last fuel k v rest :
  parse_members (S (S fuel)) (quote k +:+ ":" +:+ quote v +:+ "}" +:+ rest)
  = Parsed [(k, JString v)] rest.
Proof.
  unfold quote. repeat first [rewrite append_assoc | rewrite append_cons | rewrite append_nil_l].
  rewrite parse_members_dquote, parse_string_quote. cbn [after skip_ws is_ws Ascii.eqb Bool.eqb orb andb pmap].
  rewrite parse_value_dquote, parse_string_quote. cbn [after skip_ws is_ws Ascii.eqb Bool.eqb orb andb pmap]. reflexivity.
Qed.

Lemma parse_value_folder fuel f rest :
  (4 ≤ fuel)%nat →
  parse_value fuel (stringify_folder f +:+ rest) = Parsed (folder_value f) rest.
Proof.
  intros Hfuel. do 4 (destruct fuel as [|fuel]; [lia|]).
  unfold stringify_folder. rewrite !append_assoc.
  change ("{" +:+ ?x) with (String "{" x).
  unfold quote at 1. rewrite append_cons, parse_value_brace.
  change (String dquote (?x +:+ ?y)) with (quote "name" +:+ y).
  rewrite parse_members_more, parse_members_last. reflexivity.
Qed.

Lemma parse_elements_S fuel s :
  parse_elements (S fuel) s
  = match parse_value fuel s with
    | Parsed v rest =>
        match skip_ws rest with
        | String c r =>
            if Ascii.eqb c "," then pmap (cons v) (parse_elements fuel r)
            else if Ascii.eqb c "]" then Parsed [v] r
            else SyntaxError
        | EmptyString => SyntaxError
        end
    | SyntaxError => SyntaxError
    | OutOfFuel => OutOfFuel
    end.
Proof. reflexivity. Qed.

Lemma parse_elements_folders l : ∀ f fuel rest,
  (List.length l + 5 ≤ fuel)%nat →
  parse_elements fuel (Array_join "," (stringify_folder <$> (f :: l)) +:+ "]" +:+ rest)
  = Parsed (folder_value <$> (f :: l)) rest.
Proof.
  induction l as [|g l IH]; intros f fuel rest Hfuel;
    (destruct fuel as [|fuel]; [cbn in Hfuel; lia|]); rewrite parse_elements_S.
  - cbn [fmap list_fmap Array_join]. rewrite parse_value_folder by (cbn in Hfuel; lia).
    reflexivity.
  - change (Array_join "," (stringify_folder <$> (f :: g :: l)))
      with (stringify_folder f +:+ "," +:+ Array_join "," (stringify_folder <$> (g :: l))).
    rewrite !append_assoc, parse_value_folder by (cbn in Hfuel; lia).
    change ("," +:+ ?x) with (String "," x). cbn [after skip_ws is_ws Ascii.eqb Bool.eqb orb andb pmap].
    rewrite IH by (cbn in Hfuel; lia). reflexivity.
Qed.

Lemma length_append (a b : string) :
  String.length (a +:+ b) = (String.length a + String.length b)%nat.
Proof. induction a as [|x a IH]; [done|]. rewrite append_cons. cbn. by rewrite IH. Qed.

Lemma length_join_folders l :
  (List.length l ≤ String.length (Array_join "," (stringify_folder <$> l)))%nat.
Proof.
  induction l as [|f l IH]; [cbn; lia|].
  assert (1 ≤ String.length (stringify_folder f))%nat as Hf.
  { unfold stringify_folder. rewrite length_append.
    change (String.length "{") with 1%nat. lia. }
  destruct l as [|g l]; [cbn [List.length fmap list_fmap Array_join]; lia|].
  change (Array_join "," (stringify_folder <$> (f :: g :: l)))
    with (stringify_folder f +:+ "," +:+ Array_join "," (stringify_folder <$> (g :: l))).
  rewrite !length_append. cbn [List.length] in *. lia.
Qed.

(** [JSON.parse] reads back what [JSON.stringify] wrote. *)
Lemma parse_stringify (l : list Folder) :
  JSON.parse (JSON.stringify l) = Some (folders_value l).
Proof.
  destruct l as [|f l]; [reflexivity|].
  unfold parse, stringify.
  pose proof (length_join_folders (f :: l)) as Hlen.
  set (text := Array_join "," (stringify_folder <$> (f :: l))) in *.
  rewrite append_cons, append_nil_l. cbn [String.length].
  rewrite length_append.
  destruct (2 * S (String.length text + String.length "]") + 1)%nat as [|fuel] eqn:Hfuel; [lia|].
  assert (parse_value (S fuel) (String "[" (text +:+ "]"))
          = pmap JArray (parse_elements fuel (text +:+ "]" +:+ EmptyString))) as ->.
  { subst text. cbn [fmap list_fmap Array_join]. unfold stringify_folder at 1.
    destruct l; rewrite ?append_assoc; reflexivity. }
  subst text. rewrite parse_elements_folders; [reflexivity|].
  cbn [List.length] in Hlen. change (String.length "]") with 1%nat in Hfuel. lia.
Qed.

Lemma stringify_truthy (l : list Folder) : truthy (JSON.stringify l) = true.
Proof. reflexivity. Qed.


End JSONRoundTrip.

Section JSONFuel.
Import JSON.

Lemma within_pmap {A B} (f : A → B) k p : within k p → within k (pmap f p).
Proof. by destruct p. Qed.

Lemma within_le {A} k k' (p : parsed A) : within k p → k ≤ k' → within k' p.
Proof. destruct p; cbn; [lia | done | done]. Qed.

Lemma skip_ws_length s : String.length (skip_ws s) ≤ String.length s.
Proof.
  induction s as [|c s IH]; cbn [skip_ws]; [done|].
  destruct (is_ws c); cbn [String.length]; lia.
Qed.

Lemma after_length c s r : after c s = Some r → String.length s = S (String.length r).
Proof.
  destruct s as [|c' s]; cbn [after]; [done|].
  destruct (Ascii.eqb c' c); [|done]. by intros [= ->].
Qed.

Lemma substring_length n m s : String.length (substring n m s) ≤ String.length s.
Proof.
  revert n m. induction s as [|c s IH]; intros [|n] [|m]; cbn; try lia.
  - specialize (IH 0 m). lia.
  - specialize (IH n 0). lia.
  - specialize (IH n (S m)). lia.
Qed.

Lemma parse_items_within n : ∀ s,
  String.length s ≤ n → within (pred (String.length s)) (parse_items s).
Proof.
  induction n as [|n IH]; intros [|c r] Hlen; cbn [String.length] in *; try done; try lia.
  cbn [parse_items].
  destruct (Ascii.eqb c dquote); [cbn; lia|].
  destruct (Ascii.eqb c "\").
  - destruct r as [|e r1]; [done|]. cbn [String.length] in *.
    destruct (unescape e).
    + apply within_pmap. eapply within_le; [apply IH; lia | lia].
    + destruct (Ascii.eqb e "u"); [|done].
      destruct r1 as [|h1 [|h2 [|h3 [|h4 r2]]]]; try done.
      cbn [String.length] in *.
      destruct (hex4 h1 h2 h3 h4); [|done].
      apply within_pmap. eapply within_le; [apply IH; lia | lia].
  - destruct (code c <? 32)%N; [done|].
    apply within_pmap. eapply within_le; [apply IH; lia | lia].
Qed.

Lemma parse_string_within s : within (pred (String.length s)) (parse_string s).
Proof. apply within_pmap. by apply (parse_items_within (String.length s)). Qed.

Lemma span_digits_length s :
  String.length (span_digits s).1 + String.length (span_digits s).2 = String.length s.
Proof.
  induction s as [|c s IH]; cbn [span_digits]; [done|].
  destruct (is_digit c); [|done].
  destruct (span_digits s) as [d rest]. cbn in *. lia.
Qed.

Lemma digits1_within s : within (pred (String.length s)) (digits1 s).
Proof.
  unfold digits1. pose proof (span_digits_length s) as Hlen.
  destruct (span_digits s) as [[|c d] rest]; [done|]. cbn in *. lia.
Qed.

Lemma parse_number_within s : within (pred (String.length s)) (parse_number s).
Proof.
  unfold parse_number.
  assert (∃ sign s1, match after "-" s with
                     | Some r => ("-", r)
                     | None => (EmptyString, s)
                     end = (sign, s1)
                     ∧ String.length s1 ≤ String.length s) as (sign & s1 & -> & Hs1).
  { destruct (after "-" s) as [r|] eqn:Hr; [|eauto].
    apply after_length in Hr. eexists _, _. split; [done | lia]. }
  assert (within (pred (String.length s1))
            match after "0" s1 with
            | Some r => Parsed "0" r
            | None => digits1 s1
            end) as Hint.
  { destruct (after "0" s1) as [r|] eqn:Hr; [|apply digits1_within].
    apply after_length in Hr. cbn. lia. }
  destruct (match after "0" s1 with Some r => _ | None => _ end) as [i s2| |];
    [|done|done].
  cbn in Hint.
  assert (within (String.length s2)
            match after "." s2 with
            | Some r => pmap (String ".") (digits1 r)
            | None => Parsed EmptyString s2
            end) as Hfrac.
  { destruct (after "." s2) as [r|] eqn:Hr; [|cbn; lia].
    apply after_length in Hr. apply within_pmap.
    eapply within_le; [apply digits1_within | lia]. }
  destruct (match after "." s2 with Some r => _ | None => _ end) as [f s3| |];
    [|done|done].
  cbn in Hfrac. apply within_pmap.
  destruct s3 as [|e r]; [cbn; lia|]. cbn [String.length] in *.
  destruct (Ascii.eqb e "e" || Ascii.eqb e "E"); [|cbn; lia].
  destruct r as [|sg r']; [done|]. cbn [String.length] in *.
  destruct (Ascii.eqb sg "+" || Ascii.eqb sg "-"); apply within_pmap.
  - eapply within_le; [apply digits1_within | lia].
  - eapply within_le; [apply (digits1_within (String sg r')) | cbn; lia].
Qed.

Lemma literal_within word v s : within (String.length s) (literal word v s).
Proof.
  unfold literal. destruct (String.prefix word s); [|done].
  cbn. apply substring_length.
Qed.

Lemma parse_value_S fuel s :
  parse_value (S fuel) s
  = match skip_ws s with
    | EmptyString => SyntaxError
    | String c r =>
        if Ascii.eqb c "{" then
          match after "}" (skip_ws r) with
          | Some r' => Parsed (JObject []) r'
          | None => pmap JObject (parse_members fuel (skip_ws r))
          end
        else if Ascii.eqb c "[" then
          match after "]" (skip_ws r) with
          | Some r' => Parsed (JArray []) r'
          | None => pmap JArray (parse_elements fuel (skip_ws r))
          end
        else if Ascii.eqb c dquote then pmap JString (parse_string r)
        else if Ascii.eqb c "t" then literal "rue" (JBool true) r
        else if Ascii.eqb c "f" then literal "alse" (JBool false) r
        else if Ascii.eqb c "n" then literal "ull" JNull r
        else pmap JNumber (parse_number (String c r))
    end.
Proof. reflexivity. Qed.

Lemma parse_members_S fuel s :
  parse_members (S fuel) s
  = match skip_ws s with
    | String q r =>
        if Ascii.eqb q dquote then
          match parse_string r with
          | Parsed k rest =>
              match after ":" (skip_ws rest) with
              | Some r' =>
                  match parse_value fuel r' with
                  | Parsed v rest' =>
                      match skip_ws rest' with
                      | String c r'' =>
                          if Ascii.eqb c "," then
                            pmap (cons (k, v)) (parse_members fuel r'')
                          else if Ascii.eqb c "}" then Parsed [(k, v)] r''
                          else SyntaxError
                      | EmptyString => SyntaxError
                      end
                  | SyntaxError => SyntaxError
                  | OutOfFuel => OutOfFuel
                  end
              | None => SyntaxError
              end
          | SyntaxError => SyntaxError
          | OutOfFuel => OutOfFuel
          end
        else SyntaxError
    | EmptyString => SyntaxError
    end.
Proof. reflexivity. Qed.

(** Fuel for twice the length of the text is enough: the parsers do not
    run out of it, and what they leave is shorter than what they got. *)
Lemma parse_fuel fuel :
  (∀ s, 2 * String.length s + 1 ≤ fuel →
        within (pred (String.length s)) (parse_value fuel s))
  ∧ (∀ s, 2 * String.length s + 2 ≤ fuel →
          within (pred (String.length s)) (parse_elements fuel s))
  ∧ (∀ s, 2 * String.length s + 2 ≤ fuel →
          within (pred (String.length s)) (parse_members fuel s)).
Proof.
  induction fuel as [|fuel (IHv & IHe & IHm)]; [repeat split; intros; lia|].
  split; [|split]; intros s Hfuel.
  - rewrite parse_value_S. pose proof (skip_ws_length s) as Hs.
    destruct (skip_ws s) as [|c r]; [done|]. cbn [String.length] in Hs.
    pose proof (skip_ws_length r) as Hr.
    destruct (Ascii.eqb c "{").
    { destruct (after "}" (skip_ws r)) as [r'|] eqn:Hafter.
      - apply after_length in Hafter. cbn. lia.
      - apply within_pmap. eapply within_le; [apply IHm; lia | lia]. }
    destruct (Ascii.eqb c "[").
    { destruct (after "]" (skip_ws r)) as [r'|] eqn:Hafter.
      - apply after_length in Hafter. cbn. lia.
      - apply within_pmap. eapply within_le; [apply IHe; lia | lia]. }
    destruct (Ascii.eqb c dquote).
    { apply within_pmap. eapply within_le; [apply parse_string_within | lia]. }
    destruct (Ascii.eqb c "t").
    { eapply within_le; [apply literal_within | lia]. }
    destruct (Ascii.eqb c "f").
    { eapply within_le; [apply literal_within | lia]. }
    destruct (Ascii.eqb c "n").
    { eapply within_le; [apply literal_within | lia]. }
    apply within_pmap.
    eapply within_le; [apply parse_number_within | cbn [String.length]; lia].
  - rewrite parse_elements_S.
    assert (within (pred (String.length s)) (parse_value fuel s)) as Hv
      by (apply IHv; lia).
    destruct (parse_value fuel s) as [v rest| |]; [|done|done]. cbn in Hv.
    pose proof (skip_ws_length rest) as Hrest.
    destruct (skip_ws rest) as [|c r]; [done|]. cbn [String.length] in Hrest.
    destruct (Ascii.eqb c ",").
    { apply within_pmap. eapply within_le; [apply IHe; lia | lia]. }
    destruct (Ascii.eqb c "]"); [cbn; lia | done].
  - rewrite parse_members_S. pose proof (skip_ws_length s) as Hs.
    destruct (skip_ws s) as [|q r]; [done|]. cbn [String.length] in Hs.
    destruct (Ascii.eqb q dquote); [|done].
    pose proof (parse_string_within r) as Hk.
    destruct (parse_string r) as [k rest| |]; [|done|done]. cbn in Hk.
    pose proof (skip_ws_length rest) as Hrest.
    destruct (after ":" (skip_ws rest)) as [r'|] eqn:Hafter; [|done].
    apply after_length in Hafter.
    assert (within (pred (String.length r')) (parse_value fuel r')) as Hv
      by (apply IHv; lia).
    destruct (parse_value fuel r') as [v rest'| |]; [|done|done]. cbn in Hv.
    pose proof (skip_ws_length rest') as Hrest'.
    destruct (skip_ws rest') as [|c r'']; [done|]. cbn [String.length] in Hrest'.
    destruct (Ascii.eqb c ",").
    { apply within_pmap. eapply within_le; [apply IHm; lia | lia]. }
    destruct (Ascii.eqb c "}"); [cbn; lia | done].
Qed.

(** [JSON.parse] never fails for want of fuel: [None] is a syntax
    error. *)
Lemma parse_value_fuel text :
  parse_value (2 * String.length text + 1) text ≠ OutOfFuel.
Proof.
  pose proof (proj1 (parse_fuel (2 * String.length text + 1)) text (le_n _)) as H.
  by destruct (parse_value _ text).
Qed.

End JSONFuel.

(** ** The recency store *)

Section RecencyStore.

Lemma run_bind {R A B} (m : M R A) (f : A → M R B) (w : World R) :
  (m ≫= f) w
  = match m w with
    | (Normal a, w') => f a w'
    | (Throw e, w') => (Throw e, w')
    end.
Proof. reflexivity. Qed.

Lemma addRecentFolder_run folder w :
  OpenInCursor.addRecentFolder folder w
  = (Normal tt,
     recorded OpenInCursor.RECENT_FOLDERS_KEY
       (OpenInCursor.updatedRecentFolders folder (recentFolders (store w))) w).
Proof. reflexivity. Qed.

Lemma updated_unfold folder recent :
  OpenInCursor.updatedRecentFolders folder recent
  = folder :: take 9 (filter (λ f, path f ≠ path folder) recent).
Proof. reflexivity. Qed.

Lemma filter_all {A} (P : A → Prop) `{∀ x, Decision (P x)} (l : list A) :
  (∀ x, x ∈ l → P x) → filter P l = l.
Proof.
  induction l as [|x l IH]; intros Hall; [done|].
  rewrite filter_cons, decide_True by (apply Hall; left).
  f_equal. apply IH. intros y Hy. apply Hall. by right.
Qed.

Lemma updated_length folder recent :
  List.length (OpenInCursor.updatedRecentFolders folder recent) ≤ 10.
Proof. unfold OpenInCursor.updatedRecentFolders. rewrite length_take. unfold OpenInCursor.MAX_RECENT_FOLDERS. lia. Qed.

Lemma updated_tail_paths folder recent f :
  f ∈ take 9 (filter (λ f, path f ≠ path folder) recent) → path f ≠ path folder.
Proof.
  intros Hf. apply elem_of_take in Hf as (i & Hf & _).
  apply list_elem_of_lookup_2 in Hf. by apply list_elem_of_filter in Hf as [? _].
Qed.

Lemma NoDup_paths_sublist (l k : list Folder) :
  sublist l k → NoDup (path <$> k) → NoDup (path <$> l).
Proof. intros Hs Hnd. eapply sublist_NoDup; [exact Hnd|]. by apply fmap_sublist. Qed.

Lemma updated_NoDup folder recent :
  NoDup (path <$> recent) →
  NoDup (path <$> (OpenInCursor.updatedRecentFolders folder recent)).
Proof.
  intros Hnd. rewrite updated_unfold. cbn [fmap list_fmap]. apply NoDup_cons. split.
  - intros Hin. apply list_elem_of_fmap in Hin as (f & Hp & Hf).
    by apply updated_tail_paths in Hf.
  - eapply NoDup_paths_sublist; [|exact Hnd].
    etrans; [apply sublist_take | apply sublist_filter].
Qed.

Lemma updated_thrice f1 f2 :
  path f1 ≠ path f2 →
  OpenInCursor.updatedRecentFolders f1
    (OpenInCursor.updatedRecentFolders f2 (OpenInCursor.updatedRecentFolders f1 []))
  = [f1; f2].
Proof.
  intros Hne. rewrite !updated_unfold. cbn.
  destruct (decide (path f1 ≠ path f2)) as [_|[]]; [|done]. cbn.
  destruct (decide (path f2 ≠ path f1)) as [_|[]]; [|congruence].
  destruct (decide (path f1 ≠ path f1)) as [[]|_]; done.
Qed.

(** Inserting a list of folders one after the other. *)
Lemma for_of_addRecentFolder fs : ∀ w,
  (for_of fs OpenInCursor.addRecentFolder w).1 = Normal tt
  ∧ recentFolders (store (for_of fs OpenInCursor.addRecentFolder w).2)
    = foldl (λ recent f, OpenInCursor.updatedRecentFolders f recent)
        (recentFolders (store w)) fs.
Proof.
  induction fs as [|f fs IH]; intros w; [done|].
  cbn [for_of foldl]. rewrite run_bind, addRecentFolder_run.
  destruct (IH (recorded OpenInCursor.RECENT_FOLDERS_KEY
    (OpenInCursor.updatedRecentFolders f (recentFolders (store w))) w)) as [H1 H2].
  split; [exact H1 | exact H2].
Qed.

Lemma inserts_most_recent_first fs :
  NoDup (path <$> fs) →
  foldl (λ recent f, OpenInCursor.updatedRecentFolders f recent) [] fs
  = take 10 (reverse fs).
Proof.
  induction fs as [|x fs IH] using rev_ind; intros Hnd; [done|].
  rewrite foldl_app, reverse_app. cbn [foldl reverse app].
  rewrite fmap_app in Hnd. apply NoDup_app in Hnd as (Hfs & Hx & _).
  rewrite IH by done. rewrite updated_unfold.
  rewrite filter_all.
  - change (reverse [x] ++ reverse fs) with (x :: reverse fs).
    cbn [take]. by rewrite take_take.
  - intros f Hf Heq. apply elem_of_take in Hf as (i & Hf & _).
    apply list_elem_of_lookup_2 in Hf. rewrite elem_of_reverse in Hf.
    apply (Hx (path f)); [by apply list_elem_of_fmap_2 | rewrite Heq; set_solver].
Qed.

End RecencyStore.

(** ** The scanner and the load *)

Section Scanner.
Context (env : Env) {R : Type}.

Lemma logged_nil (w : World R) : logged [] w = w.
Proof. destruct w. unfold logged. cbn. by rewrite app_nil_r. Qed.

Lemma logged_logged l1 l2 (w : World R) : logged l2 (logged l1 w) = logged (l1 ++ l2) w.
Proof. unfold logged. cbn. by rewrite app_assoc. Qed.

Lemma getFoldersFromPath_run dirPath (w : World R) :
  OpenInCursor.getFoldersFromPath env dirPath w
  = if existsSync env dirPath then
      match readdirSync env dirPath with
      | inr entries => (Normal (subfolders dirPath entries), w)
      | inl err =>
          (Normal [], logged [Error ("Error reading directory " +:+ dirPath +:+ ":") err] w)
      end
    else (Normal [], logged [Warn ("Path does not exist: " +:+ dirPath)] w).
Proof.
  unfold OpenInCursor.getFoldersFromPath, try_catch, readdir.
  destruct (existsSync env dirPath); cbn; [|done].
  rewrite run_bind. destruct (readdirSync env dirPath); done.
Qed.

Lemma getFoldersFromPath_logs dirPath (w : World R) :
  ∃ fs entries, OpenInCursor.getFoldersFromPath env dirPath w = (Normal fs, logged entries w).
Proof.
  rewrite getFoldersFromPath_run.
  destruct (existsSync env dirPath); [destruct (readdirSync env dirPath)|]; eauto.
  eexists _, []. by rewrite logged_nil.
Qed.

Lemma flatMap_logs roots : ∀ w : World R,
  ∃ fs entries,
    flatMap (OpenInCursor.getFoldersFromPath env) roots w = (Normal fs, logged entries w).
Proof.
  induction roots as [|r roots IH]; intros w.
  - eexists [], []. by rewrite logged_nil.
  - destruct (getFoldersFromPath_logs r w) as (fs & l1 & Hr).
    destruct (IH (logged l1 w)) as (gs & l2 & Hrs).
    exists (fs ++ gs), (l1 ++ l2). cbn [flatMap].
    rewrite run_bind, Hr, run_bind, Hrs, logged_logged. reflexivity.
Qed.

(** Roots that exist and can be read. *)
Lemma flatMap_readable (ls : string → list fs.Dirent) roots : ∀ w : World R,
  (∀ r, r ∈ roots → existsSync env r = true ∧ readdirSync env r = inr (ls r)) →
  flatMap (OpenInCursor.getFoldersFromPath env) roots w
  = (Normal (roots ≫= λ r, subfolders r (ls r)), w).
Proof.
  induction roots as [|r roots IH]; intros w Hroots; [done|].
  destruct (Hroots r) as [He Hr]; [by left|].
  cbn [flatMap]. rewrite run_bind, getFoldersFromPath_run, He, Hr.
  rewrite run_bind, IH by (intros; apply Hroots; by right). reflexivity.
Qed.

End Scanner.

Section Load.
Context (env : Env).

Lemma loadFolders_work_run (w : World json) :
  ∃ fs entries,
    OpenInCursorWork.loadFolders env w
    = (Normal tt,
       match storage w !! OpenInCursorWork.RECENT_FOLDERS_KEY with
       | Some stored =>
           if truthy stored then
             match JSON.parse stored with
             | Some v => loaded fs v [] entries w
             | None =>
                 loaded fs (recentFolders (store w))
                   [mkToast Failure "Error reading folders"
                      (Some (message_of (syntaxError env stored)))] entries w
             end
           else loaded fs (recentFolders (store w)) [] entries w
       | None => loaded fs (recentFolders (store w)) [] entries w
       end).
Proof.
  destruct (flatMap_logs env (OpenInCursorWork.SEARCH_PATHS env) w)
    as (fs & entries & Hscan).
  exists fs, entries.
  unfold OpenInCursorWork.loadFolders, try_finally, try_catch.
  change (@OpenInCursorWork.getFoldersFromPath env json)
    with (@OpenInCursor.getFoldersFromPath env json).
  rewrite run_bind, Hscan, run_bind. unfold loaded.
  change (OpenInCursorWork.setFolders fs (logged entries w))
    with (Normal tt, mkWorld (mkAppState fs (recentFolders (store w)) (isLoading (store w)))
            (storage w) (inflight w) (toasts w) (console w ++ entries) (launched w)).
  cbv iota beta. rewrite run_bind. unfold LocalStorage.getItem at 1.
  cbv iota beta. cbn [storage].
  destruct (storage w !! OpenInCursorWork.RECENT_FOLDERS_KEY) as [stored|];
    [|cbn; by rewrite app_nil_r].
  destruct (truthy stored); [|cbn; by rewrite app_nil_r].
  rewrite run_bind. unfold JSON_parse.
  destruct (JSON.parse stored) as [v|]; cbn; [by rewrite app_nil_r|done].
Qed.

Lemma loadFolders_run (w : World json) :
  ∃ fs entries,
    OpenInCursor.loadFolders env w
    = (Normal tt,
       match storage w !! OpenInCursor.RECENT_FOLDERS_KEY with
       | Some stored =>
           if truthy stored then
             match JSON.parse stored with
             | Some v => loaded fs v [] entries w
             | None =>
                 loaded fs (recentFolders (store w))
                   [mkToast Failure "Error reading folders"
                      (Some (message_of (syntaxError env stored)))] entries w
             end
           else loaded fs (recentFolders (store w)) [] entries w
       | None => loaded fs (recentFolders (store w)) [] entries w
       end).
Proof.
  destruct (flatMap_logs env (OpenInCursor.SEARCH_PATHS env) w) as (fs & entries & Hscan).
  exists fs, entries.
  unfold OpenInCursor.loadFolders, try_finally, try_catch.
  rewrite run_bind, Hscan, run_bind. unfold loaded.
  change (OpenInCursor.setFolders fs (logged entries w))
    with (Normal tt, mkWorld (mkAppState fs (recentFolders (store w)) (isLoading (store w)))
            (storage w) (inflight w) (toasts w) (console w ++ entries) (launched w)).
  cbv iota beta. rewrite run_bind. unfold LocalStorage.getItem at 1.
  cbv iota beta. cbn [storage].
  destruct (storage w !! OpenInCursor.RECENT_FOLDERS_KEY) as [stored|];
    [|cbn; by rewrite app_nil_r].
  destruct (truthy stored); [|cbn; by rewrite app_nil_r].
  rewrite run_bind. unfold JSON_parse.
  destruct (JSON.parse stored) as [v|]; cbn; [by rewrite app_nil_r|done].
Qed.

End Load.

Section Open.
Context (env : Env).

Lemma openInCursor_run folder (w : World (list Folder)) :
  let l := Open (path folder) "Cursor" in
  OpenInCursor.openInCursor env folder w
  = (Normal tt,
     match launch env (launched w) l with
     | None =>
         recorded OpenInCursor.RECENT_FOLDERS_KEY
           (OpenInCursor.updatedRecentFolders folder (recentFolders (store w)))
           (requested l [mkToast Success "Opened in Cursor" (Some (path folder))] w)
     | Some e => requested l [failure_toast e] w
     end).
Proof.
  cbv zeta. unfold OpenInCursor.openInCursor, try_catch, open, request.
  rewrite run_bind. destruct (launch env (launched w) _) as [e|]; reflexivity.
Qed.

Lemma findWorkspaceFileInFolder_run {R} folderPath (w : World R) :
  ∃ entries,
    OpenInCursorWork.findWorkspaceFileInFolder env folderPath w
    = (Normal (workspaceFile env folderPath), logged entries w).
Proof.
  unfold OpenInCursorWork.findWorkspaceFileInFolder, workspaceFile, try_catch, readdir.
  destruct (existsSync env folderPath); cbn [negb].
  - rewrite run_bind. destruct (readdirSync env folderPath) as [err|entries].
    + eexists [_]. reflexivity.
    + exists []. rewrite logged_nil. unfold is_workspace_file.
      cbn. by destruct (find _ entries).
  - exists []. by rewrite logged_nil.
Qed.

Lemma openInCursor_work_run folder (w : World (list Folder)) :
  ∃ entries,
    let l := Exec (OpenInCursorWork.cursor (openTarget env folder)) in
    OpenInCursorWork.openInCursor env folder w
    = (Normal tt,
       match launch env (launched w) l with
       | None =>
           recorded OpenInCursorWork.RECENT_FOLDERS_KEY
             (OpenInCursorWork.updatedRecentFolders folder (recentFolders (store w)))
             (requested l [success_toast env folder] (logged entries w))
       | Some e => requested l [failure_toast e] (logged entries w)
       end).
Proof.
  destruct (findWorkspaceFileInFolder_run (path folder) w) as (entries & Hfind).
  exists entries. cbv zeta.
  unfold OpenInCursorWork.openInCursor, try_catch. rewrite !run_bind, Hfind.
  unfold openTarget, success_toast.
  destruct (workspaceFile env (path folder)) as [file|]; [destruct (truthy file)|];
    rewrite !run_bind; unfold execAsync, request; cbv beta; cbn [launched logged];
    destruct (launch env (launched w) _) as [e|]; reflexivity.
Qed.

End Open.

(** ** Paths and the selection *)

Section Paths.

Lemma append_truthy_l a b : truthy a = true → truthy (a +:+ b) = true.
Proof. by destruct a. Qed.

Lemma append_truthy_r a b : truthy b = true → truthy (a +:+ b) = true.
Proof. by destruct a. Qed.

Lemma truthy_bool_decide s : truthy s = negb (bool_decide (s = EmptyString)).
Proof. reflexivity. Qed.

Lemma normalize_truthy p : truthy (path.normalize p) = true.
Proof.
  unfold path.normalize.
  destruct (bool_decide (p = EmptyString)); [done|].
  set (p' := Array_join _ _).
  destruct (bool_decide (p' = EmptyString)) eqn:Hp'.
  - by destruct (String.prefix "/" p), (endsWith p "/").
  - assert (truthy p' = true) as Ht by (by rewrite truthy_bool_decide, Hp').
    destruct (String.prefix "/" p), (endsWith p "/");
      auto using append_truthy_l, append_truthy_r.
Qed.

(** [path.join] never returns the empty string. *)
Lemma join_truthy args : truthy (path.join args) = true.
Proof.
  unfold path.join. destruct (filter _ args); [done | apply normalize_truthy].
Qed.

Lemma find_first_match {A} (P : A → bool) before x after :
  (∀ y, y ∈ before → P y = false) → P x = true →
  find P (before ++ x :: after) = Some x.
Proof.
  intros Hbefore Hx. induction before as [|y before IH]; cbn.
  - by rewrite Hx.
  - rewrite Hbefore by left. apply IH. intros. apply Hbefore. by right.
Qed.

Lemma find_no_match {A} (P : A → bool) l :
  (∀ y, y ∈ l → P y = false) → find P l = None.
Proof.
  intros Hl. induction l as [|y l IH]; cbn; [done|].
  rewrite Hl by left. apply IH. intros. apply Hl. by right.
Qed.

End Paths.

Section Selection.
Context (env : Env) {R : Type}.

(** Every item is handed to the Opener, whatever happened to the ones
    before it. *)
Lemma for_of_attempt items : ∀ w : World R,
  for_of items (attempt env) w
  = (Normal tt,
     mkWorld (store w) (storage w) (inflight w) (toasts w)
       (console w ++ failures env (launched w) items)
       (launched w ++ ((λ itemPath, Open itemPath "Cursor") <$> items))).
Proof.
  induction items as [|item items IH]; intros w.
  - destruct w. cbn. by rewrite !app_nil_r.
  - cbn [for_of failures]. rewrite run_bind.
    unfold attempt at 1. unfold try_catch, open, request.
    destruct (launch env (launched w) (Open item "Cursor")) as [e|].
    + cbn [console_log]. rewrite IH. cbn. by rewrite <- !app_assoc.
    + rewrite IH. cbn. by rewrite <- !app_assoc.
Qed.

Lemma Command_run (w : World R) :
  finderSelection env ≠ [] →
  OpenFinderSelection.Command env w
  = (Normal tt,
     mkWorld (store w) (storage w) (inflight w)
       (toasts w ++ [summary (finderSelection env)])
       (console w ++ failures env (launched w) (finderSelection env))
       (launched w ++ ((λ itemPath, Open itemPath "Cursor") <$> finderSelection env))).
Proof.
  intros Hsel.
  pose proof (for_of_attempt (finderSelection env) w) as Hrun.
  unfold OpenFinderSelection.Command, try_catch, OpenFinderSelection.getSelectedFinderItems.
  rewrite run_bind. cbn [mret M_ret].
  rewrite bool_decide_false by (by destruct (finderSelection env)).
  rewrite run_bind.
  change (for_of (finderSelection env) _ w) with (for_of (finderSelection env) (attempt env) w).
  rewrite Hrun. reflexivity.
Qed.

End Selection.

(** Once settled, the request of [addRecentFolder] is what the key holds. *)
Lemma settle_recorded key updated (w : World (list Folder)) :
  storage (LocalStorage.settle (recorded key updated w)) !! key
  = Some (JSON.stringify updated).
Proof.
  unfold LocalStorage.settle, recorded. cbn [storage inflight].
  rewrite foldl_app. cbn [foldl LocalStorage.apply]. apply lookup_insert_eq.
Qed.

(** * The claims *)

(** ** The recency store *)

(** C1 — inserting [f1], then [f2], then [f1] again, for two folders with
    different paths and starting from the empty list, leaves the list
    [[f1; f2]]: [f1] at position 0, length 2, no path twice.  This holds
    for [addRecentFolder] of both folder browsers.  In general the list an
    insertion computes starts with the folder inserted, no later entry has
    its path, and a list without duplicate paths stays so. *)
Theorem addRecentFolder_promotes (f1 f2 : Folder) (w : World (list Folder)) :
  path f1 ≠ path f2 →
  recentFolders (store w) = [] →
  let promoted (add : Folder → M (list Folder) unit) :=
    let r := (add f1;; add f2;; add f1) w in
    r.1 = Normal tt
    ∧ recentFolders (store r.2) = [f1; f2]
    ∧ recentFolders (store r.2) !! 0 = Some f1
    ∧ List.length (recentFolders (store r.2)) = 2
    ∧ NoDup (path <$> recentFolders (store r.2)) in
  promoted OpenInCursor.addRecentFolder
  ∧ promoted OpenInCursorWork.addRecentFolder
  ∧ ∀ folder recent,
      let updated := OpenInCursor.updatedRecentFolders folder recent in
      updated !! 0 = Some folder
      ∧ (∀ i f, updated !! S i = Some f → path f ≠ path folder)
      ∧ (NoDup (path <$> recent) → NoDup (path <$> updated)).
Proof.
  intros Hne Hw. cbv beta zeta.
  change OpenInCursorWork.addRecentFolder with OpenInCursor.addRecentFolder.
  assert (((OpenInCursor.addRecentFolder f1;; OpenInCursor.addRecentFolder f2;;
            OpenInCursor.addRecentFolder f1) w).1 = Normal tt
          ∧ recentFolders
              (store ((OpenInCursor.addRecentFolder f1;; OpenInCursor.addRecentFolder f2;;
                       OpenInCursor.addRecentFolder f1) w).2) = [f1; f2]) as [Hr Hs].
  { repeat first [rewrite run_bind | rewrite addRecentFolder_run | progress cbv beta iota].
    cbn [recorded store recentFolders fst snd]. rewrite Hw.
    rewrite updated_thrice by done. done. }
  assert (NoDup (path <$> [f1; f2])) as Hnd.
  { apply NoDup_cons.
    split; [by intros ?%list_elem_of_singleton | apply NoDup_singleton]. }
  rewrite Hr, Hs. split; [done|]. split; [done|].
  intros folder recent. rewrite updated_unfold. split; [done|]. split.
  - intros i f Hi. apply (updated_tail_paths folder recent).
    by eapply list_elem_of_lookup_2.
  - rewrite <- updated_unfold. apply updated_NoDup.
Qed.

Lemma addRecentFolder_promotes_witness :
  path folder_x ≠ path folder_y
  ∧ recentFolders
      (store ((OpenInCursor.addRecentFolder folder_x;;
               OpenInCursor.addRecentFolder folder_y;;
               OpenInCursor.addRecentFolder folder_x) (startup [] ∅)).2)
    = [folder_x; folder_y].
Proof.
  split; [discriminate|].
  exact (proj1 (proj2 (proj1
    (addRecentFolder_promotes folder_x folder_y (startup [] ∅) ltac:(discriminate) eq_refl)))).
Defined.

(** C2 — more than ten insertions of folders with pairwise different
    paths, starting from the empty list, leave exactly ten entries: the ten
    inserted last, the last one first.  After any insertion the list has at
    most ten entries, and it is the start of the list with the folder put
    in front: what is dropped is dropped at the tail. *)
Theorem recent_folders_capacity (folders : list Folder) (w : World (list Folder)) :
  NoDup (path <$> folders) →
  10 < List.length folders →
  recentFolders (store w) = [] →
  ((for_of folders OpenInCursor.addRecentFolder w).1 = Normal tt
   ∧ recentFolders (store (for_of folders OpenInCursor.addRecentFolder w).2)
     = take 10 (reverse folders)
   ∧ List.length (recentFolders (store (for_of folders OpenInCursor.addRecentFolder w).2))
     = 10)
  ∧ ∀ folder (w0 : World (list Folder)),
      let after := recentFolders (store (OpenInCursor.addRecentFolder folder w0).2) in
      let after' := recentFolders (store (OpenInCursorWork.addRecentFolder folder w0).2) in
      after' = after
      ∧ List.length after ≤ 10
      ∧ after `prefix_of`
          folder :: filter (λ f, path f ≠ path folder) (recentFolders (store w0)).
Proof.
  intros Hnd Hlen Hw. split.
  - destruct (for_of_addRecentFolder folders w) as [Hr Hs].
    rewrite Hr, Hs, Hw, inserts_most_recent_first by done.
    split; [done|]. split; [done|].
    rewrite length_take, length_reverse. lia.
  - intros folder w0. cbv zeta.
    change OpenInCursorWork.addRecentFolder with OpenInCursor.addRecentFolder.
    rewrite addRecentFolder_run.
    cbn [recorded store recentFolders snd]. split; [done|].
    split; [apply updated_length | apply prefix_take].
Qed.

Lemma recent_folders_capacity_witness :
  NoDup (path <$> eleven)
  ∧ 10 < List.length eleven
  ∧ recentFolders (store (for_of eleven OpenInCursor.addRecentFolder (startup [] ∅)).2)
    = take 10 (reverse eleven).
Proof.
  assert (NoDup (path <$> eleven)) as Hnd
    by (refine (bool_decide_unpack (NoDup (path <$> eleven)) _); vm_compute; exact I).
  assert (10 < List.length eleven) as Hlen by (cbn; lia).
  split; [exact Hnd|]. split; [exact Hlen|].
  exact (proj1 (proj2 (proj1 (recent_folders_capacity eleven (startup [] ∅) Hnd Hlen eq_refl)))).
Defined.

(** C10 — the two folder browsers insert alike: for every folder and every
    world the two [addRecentFolder] return the same world, because they
    compute the same list (same filter by path, same front, same cut at
    ten) and send it to the storage under the same key,
    [recentFolders]. *)
Theorem addRecentFolder_variants_agree (folder : Folder) (w : World (list Folder)) :
  OpenInCursorWork.addRecentFolder folder w = OpenInCursor.addRecentFolder folder w
  ∧ OpenInCursorWork.updatedRecentFolders folder (recentFolders (store w))
    = OpenInCursor.updatedRecentFolders folder (recentFolders (store w))
  ∧ OpenInCursorWork.RECENT_FOLDERS_KEY = OpenInCursor.RECENT_FOLDERS_KEY
  ∧ OpenInCursorWork.MAX_RECENT_FOLDERS = OpenInCursor.MAX_RECENT_FOLDERS
  ∧ inflight (OpenInCursor.addRecentFolder folder w).2
    = inflight w
      ++ [SetItem "recentFolders"
            (JSON.stringify
               (take 10 (folder :: filter (λ f, path f ≠ path folder)
                                     (recentFolders (store w)))))].
Proof. repeat split. Qed.

(** C9 — the folders listed under "All Folders" are the scanned folders
    whose path is no path of the recent list: none of them has a path that
    occurs in the recent list, whatever the two lists are (both
    browsers). *)
Theorem otherFolders_excludes_recent (recentFolders folders : list Folder) :
  Forall (λ f, path f ∉ path <$> recentFolders)
    (OpenInCursor.otherFolders recentFolders folders)
  ∧ OpenInCursorWork.otherFolders recentFolders folders
    = OpenInCursor.otherFolders recentFolders folders
  ∧ ∀ f, f ∈ OpenInCursor.otherFolders recentFolders folders
         ↔ f ∈ folders ∧ path f ∉ path <$> recentFolders.
Proof.
  assert (∀ f, f ∈ OpenInCursor.otherFolders recentFolders folders
               ↔ f ∈ folders ∧ path f ∉ path <$> recentFolders) as Hiff.
  { intros f. unfold OpenInCursor.otherFolders. cbv zeta.
    rewrite list_elem_of_filter, elem_of_list_to_set. tauto. }
  split; [|split; [reflexivity | exact Hiff]].
  apply Forall_forall. intros f Hf. by apply Hiff in Hf as [_ ?].
Qed.

(** C3, as the code has it — [addRecentFolder] sends the new list to the
    storage, as JSON and under the key [recentFolders], and returns without
    awaiting the request: the storage itself is as it was.  Once the request
    has reached the storage, the key holds the JSON text of the new list,
    and [loadFolders] in a restarted process reads that list back (both
    browsers). *)
Theorem addRecentFolder_persists_once_settled
    (env : Env) (folder : Folder) (w : World (list Folder)) :
  let updated := OpenInCursor.updatedRecentFolders folder (recentFolders (store w)) in
  let written := SetItem "recentFolders" (JSON.stringify updated) in
  let reloaded (load : M json unit) (w' : World (list Folder)) :=
    recentFolders
      (store (load (restart (OpenInCursor.initialState (JArray []))
                      (LocalStorage.settle w'))).2) in
  (let r := OpenInCursor.addRecentFolder folder w in
   r.1 = Normal tt
   ∧ recentFolders (store r.2) = updated
   ∧ storage r.2 = storage w
   ∧ inflight r.2 = inflight w ++ [written]
   ∧ storage (LocalStorage.settle r.2) !! "recentFolders" = Some (JSON.stringify updated)
   ∧ reloaded (OpenInCursor.loadFolders env) r.2 = folders_value updated)
  ∧ (let r := OpenInCursorWork.addRecentFolder folder w in
     r.1 = Normal tt
     ∧ recentFolders (store r.2) = updated
     ∧ storage r.2 = storage w
     ∧ inflight r.2 = inflight w ++ [written]
     ∧ storage (LocalStorage.settle r.2) !! "recentFolders" = Some (JSON.stringify updated)
     ∧ reloaded (OpenInCursorWork.loadFolders env) r.2 = folders_value updated).
Proof.
  cbv zeta. change OpenInCursorWork.addRecentFolder with OpenInCursor.addRecentFolder.
  rewrite addRecentFolder_run. cbn [fst snd].
  set (updated := OpenInCursor.updatedRecentFolders folder (recentFolders (store w))).
  pose proof (settle_recorded OpenInCursor.RECENT_FOLDERS_KEY updated w) as Hkey.
  set (w1 := restart (OpenInCursor.initialState (JArray []))
               (LocalStorage.settle (recorded OpenInCursor.RECENT_FOLDERS_KEY updated w))).
  assert (storage w1 !! OpenInCursor.RECENT_FOLDERS_KEY = Some (JSON.stringify updated))
    as Hstored by exact Hkey.
  destruct (loadFolders_run env w1) as (fs & l1 & Hload).
  destruct (loadFolders_work_run env w1) as (gs & l2 & Hload').
  change OpenInCursorWork.RECENT_FOLDERS_KEY with OpenInCursor.RECENT_FOLDERS_KEY in Hload'.
  rewrite Hstored, stringify_truthy, parse_stringify in Hload, Hload'.
  rewrite Hload, Hload'. repeat split; exact Hkey.
Qed.

(** C3, as stated, fails: when [addRecentFolder] has returned, nothing has
    been written yet.  A process that ends at that point and starts again
    loads the empty list, not the list with the folder. *)
Lemma addRecentFolder_returns_before_the_write :
  let r := OpenInCursor.addRecentFolder folder_x (startup [] ∅) in
  let restarted := restart (OpenInCursor.initialState (JArray [])) r.2 in
  r.1 = Normal tt
  ∧ recentFolders (store r.2) = [folder_x]
  ∧ storage r.2 !! "recentFolders" = None
  ∧ recentFolders (store (OpenInCursor.loadFolders (example_env [] []) restarted).2)
    = JArray []
  ∧ JArray [] ≠ folders_value [folder_x].
Proof. cbv zeta. repeat split. discriminate. Qed.

(** C4, as the code has it — [loadFolders] returns normally and ends with
    [isLoading] false.  When the value stored under [recentFolders] is
    missing, is the empty string or is not JSON, the list of the store
    stays empty; for a text that is not JSON the syntax error is caught
    and shown in a failure toast.  A text that is JSON goes into the store
    as the value [JSON.parse] gives, whatever its shape (both browsers). *)
Theorem loadFolders_unreadable_is_empty (env : Env) (w : World json) :
  recentFolders (store w) = JArray [] →
  let stored := storage w !! "recentFolders" in
  let unreadable :=
    stored = None ∨ stored = Some EmptyString
    ∨ ∃ text, stored = Some text ∧ JSON.parse text = None in
  let outcome (r : completion unit * World json) :=
    r.1 = Normal tt
    ∧ isLoading (store r.2) = false
    ∧ (unreadable → recentFolders (store r.2) = JArray [])
    ∧ (∀ text, stored = Some text → text ≠ EmptyString → JSON.parse text = None →
         toasts r.2
         = toasts w ++ [mkToast Failure "Error reading folders"
                          (Some (message_of (syntaxError env text)))])
    ∧ (∀ text v, stored = Some text → text ≠ EmptyString → JSON.parse text = Some v →
         recentFolders (store r.2) = v) in
  outcome (OpenInCursor.loadFolders env w)
  ∧ outcome (OpenInCursorWork.loadFolders env w).
Proof.
  intros Hempty. cbv zeta.
  destruct (loadFolders_run env w) as (fs & l1 & ->).
  destruct (loadFolders_work_run env w) as (gs & l2 & ->).
  change OpenInCursorWork.RECENT_FOLDERS_KEY with "recentFolders".
  change OpenInCursor.RECENT_FOLDERS_KEY with "recentFolders".
  destruct (storage w !! "recentFolders") as [text|].
  - destruct (decide (text = EmptyString)) as [->|Htext].
    + cbn. rewrite Hempty. repeat split; try done; intros; by simplify_eq.
    + assert (truthy text = true) as ->
        by (by rewrite truthy_bool_decide, bool_decide_false).
      destruct (JSON.parse text) as [v|] eqn:Hparse; cbn; rewrite ?Hempty;
        repeat split; try done; intros; destruct_or?; destruct_and?;
        repeat match goal with H : ∃ _, _ |- _ => destruct H as (? & ? & ?) end;
        by simplify_eq.
  - cbn. rewrite Hempty. repeat split; done.
Qed.

Lemma loadFolders_unreadable_is_empty_witness :
  let w := startup (JArray []) {["recentFolders" := "{not json"]} in
  let r := OpenInCursor.loadFolders (example_env [] []) w in
  JSON.parse "{not json" = None
  ∧ recentFolders (store r.2) = JArray []
  ∧ toasts r.2 = [mkToast Failure "Error reading folders" (Some "Unexpected token")].
Proof.
  cbv zeta. split; [reflexivity|].
  pose proof (proj1 (loadFolders_unreadable_is_empty (example_env [] [])
    (startup (JArray []) {["recentFolders" := "{not json"]}) eq_refl))
    as (_ & _ & Hrecent & Htoast & _).
  split.
  - apply Hrecent. right. right. exists "{not json".
    split; [apply lookup_insert_eq | reflexivity].
  - apply (Htoast "{not json"); [apply lookup_insert_eq | discriminate | reflexivity].
Defined.

(** C4, as stated, fails: the stored text [[1]] is JSON, but no list of
    folders; [loadFolders] puts the array with the number into the store,
    which is then not empty. *)
Lemma loadFolders_keeps_any_json :
  let w := startup (JArray []) {["recentFolders" := "[1]"]} in
  let r := OpenInCursor.loadFolders (example_env [] []) w in
  JSON.parse "[1]" = Some (JArray [JNumber "1"])
  ∧ is_folder_list (JArray [JNumber "1"]) = false
  ∧ r.1 = Normal tt
  ∧ recentFolders (store r.2) = JArray [JNumber "1"]
  ∧ recentFolders (store r.2) ≠ JArray [].
Proof. cbv zeta. vm_compute. repeat split. discriminate. Qed.

(** ** The open commands *)

(** C5, as the code has it — for a selection that is not empty, [Command]
    hands every selected path to the Opener, in order and whatever the
    earlier ones did, writes one line on the console for each launch that
    fails, returns normally, and ends with one success toast that names the
    number of selected items.  The toast is the same whatever the Opener
    answers: it tells no failure from a success. *)
Theorem Command_summary_counts_the_selection {R} (env : Env) (w : World R) :
  finderSelection env ≠ [] →
  let items := finderSelection env in
  let count := pretty (List.length items) in
  let item0 := default EmptyString (items !! 0) in
  let r := OpenFinderSelection.Command env w in
  r.1 = Normal tt
  ∧ launched r.2 = launched w ++ ((λ itemPath, Open itemPath "Cursor") <$> items)
  ∧ console r.2 = console w ++ failures env (launched w) items
  ∧ toasts r.2
    = toasts w
      ++ [ if bool_decide (List.length items = 1) then
             mkToast Success
               ("Opened " +:+ count +:+ " "
                +:+ (if endsWith item0 "/" then "folder" else "file") +:+ " in Cursor")
               (Some item0)
           else
             mkToast Success ("Opened " +:+ count +:+ " items in Cursor")
               (Some (count +:+ " items opened")) ]
  ∧ ∀ env', finderSelection env' = items →
      toasts (OpenFinderSelection.Command env' w).2 = toasts r.2.
Proof.
  intros Hsel. cbv zeta. rewrite (Command_run env w Hsel).
  cbn [fst snd launched toasts console]. split; [done|]. split; [done|]. split; [done|].
  split.
  - unfold summary. by destruct (bool_decide (List.length (finderSelection env) = 1)).
  - intros env' Henv'. rewrite (Command_run env' w) by (by rewrite Henv').
    cbn [snd toasts]. by rewrite Henv'.
Qed.

Lemma Command_summary_counts_the_selection_witness :
  let env := example_env ["/tmp/A/y"] ["/tmp/A/x"; "/tmp/A/y"; "/tmp/A/z.txt"] in
  let r := OpenFinderSelection.Command env (startup tt ∅) in
  finderSelection env ≠ []
  ∧ launched r.2
    = [Open "/tmp/A/x" "Cursor"; Open "/tmp/A/y" "Cursor"; Open "/tmp/A/z.txt" "Cursor"]
  ∧ toasts r.2 = [mkToast Success "Opened 3 items in Cursor" (Some "3 items opened")].
Proof.
  cbv zeta. split; [discriminate|].
  pose proof (Command_summary_counts_the_selection
    (example_env ["/tmp/A/y"] ["/tmp/A/x"; "/tmp/A/y"; "/tmp/A/z.txt"]) (startup tt ∅)
    ltac:(discriminate)) as (_ & Hlaunched & _ & Htoasts & _).
  split; [exact Hlaunched | exact Htoasts].
Defined.

(** C5, as stated, fails: with two items selected and an Opener that
    refuses both, the toast is the one shown when both open, a success
    toast that says two items were opened; the two failures are on the
    console only. *)
Lemma Command_summary_hides_failures :
  let items := ["/tmp/A/x"; "/tmp/A/y"] in
  let failing := OpenFinderSelection.Command (example_env items items) (startup tt ∅) in
  let opening := OpenFinderSelection.Command (example_env [] items) (startup tt ∅) in
  toasts failing.2 = [mkToast Success "Opened 2 items in Cursor" (Some "2 items opened")]
  ∧ console failing.2
    = [Error "Error opening /tmp/A/x:" (ErrorObject "Error" "Command failed");
       Error "Error opening /tmp/A/y:" (ErrorObject "Error" "Command failed")]
  ∧ console opening.2 = []
  ∧ toasts opening.2 = toasts failing.2.
Proof. cbv zeta. vm_compute. repeat split. Qed.

(** C6 — when the launch of a single-folder open fails (the request the
    action made was rejected with [e]), the action returns normally, the
    store is as it was (so is the recent list in it), the storage is as it
    was and no request to it has been made, and the one toast added is the
    failure toast with [String(e)] (both browsers). *)
Theorem openInCursor_failure_keeps_recents
    (env : Env) (folder : Folder) (w : World (list Folder)) (l : Launch) (e : thrown) :
  let unchanged (r : completion unit * World (list Folder)) :=
    launched r.2 = launched w ++ [l] →
    launch env (launched w) l = Some e →
    r.1 = Normal tt
    ∧ store r.2 = store w
    ∧ storage r.2 = storage w
    ∧ inflight r.2 = inflight w
    ∧ toasts r.2
      = toasts w ++ [mkToast Failure "Failed to open in Cursor" (Some (String_ e))] in
  unchanged (OpenInCursor.openInCursor env folder w)
  ∧ unchanged (OpenInCursorWork.openInCursor env folder w).
Proof.
  cbv zeta. split.
  - rewrite openInCursor_run. cbv zeta. cbn [fst snd].
    set (l0 := Open (path folder) "Cursor").
    intros Hl He.
    assert (l0 = l) as ->.
    { destruct (launch env (launched w) l0); cbn in Hl;
        apply app_inj_tail in Hl as [_ ?]; done. }
    rewrite He. done.
  - destruct (openInCursor_work_run env folder w) as (entries & ->).
    cbv zeta. cbn [fst snd].
    set (l0 := Exec (OpenInCursorWork.cursor (openTarget env folder))).
    intros Hl He.
    assert (l0 = l) as ->.
    { destruct (launch env (launched w) l0); cbn in Hl;
        apply app_inj_tail in Hl as [_ ?]; done. }
    rewrite He. done.
Qed.

Lemma openInCursor_failure_keeps_recents_witness :
  let env := example_env ["/tmp/A/y"] [] in
  let w := startup [folder_x] {["recentFolders" := JSON.stringify [folder_x]]} in
  let r := OpenInCursor.openInCursor env folder_y w in
  launch env (launched w) (Open "/tmp/A/y" "Cursor")
  = Some (ErrorObject "Error" "Command failed")
  ∧ store r.2 = store w
  ∧ storage r.2 = storage w
  ∧ inflight r.2 = inflight w
  ∧ toasts r.2
    = [mkToast Failure "Failed to open in Cursor" (Some "Error: Command failed")].
Proof.
  cbv zeta. split; [reflexivity|].
  pose proof (proj1 (openInCursor_failure_keeps_recents (example_env ["/tmp/A/y"] [])
    folder_y (startup [folder_x] {["recentFolders" := JSON.stringify [folder_x]]})
    (Open "/tmp/A/y" "Cursor") (ErrorObject "Error" "Command failed"))
    eq_refl eq_refl) as (_ & Hstore & Hstorage & Hinflight & Htoasts).
  split; [exact Hstore|]. split; [exact Hstorage|]. split; [exact Hinflight|exact Htoasts].
Defined.

(** C7 — what [openInCursor] of the Work browser opens, as the one command
    it runs: for a folder that does not exist, [cursor] on the folder's
    own path; for a folder whose entries are [before], then [file], then
    [after], where [file] is a file whose name ends in [.code-workspace]
    and no entry of [before] is one, [cursor] on the folder's path joined
    with the name of [file], so the first match in enumeration order and,
    with no match in [after], the only one; for a folder none of whose
    entries is such a file, [cursor] on the folder's own path. *)
Theorem openInCursor_target (env : Env) (folder : Folder) (w : World (list Folder)) :
  let commands := launched (OpenInCursorWork.openInCursor env folder w).2 in
  let matches entry := fs.isFile entry && endsWith (fs.name entry) ".code-workspace" in
  let cursor target := Exec (OpenInCursorWork.cursor target) in
  (existsSync env (path folder) = false →
   commands = launched w ++ [cursor (path folder)])
  ∧ (∀ before file after,
       existsSync env (path folder) = true →
       readdirSync env (path folder) = inr (before ++ file :: after) →
       (∀ entry, entry ∈ before → matches entry = false) →
       matches file = true →
       commands = launched w ++ [cursor (path.join [path folder; fs.name file])])
  ∧ (∀ entries,
       existsSync env (path folder) = true →
       readdirSync env (path folder) = inr entries →
       (∀ entry, entry ∈ entries → matches entry = false) →
       commands = launched w ++ [cursor (path folder)]).
Proof.
  cbv zeta. destruct (openInCursor_work_run env folder w) as (entries & ->).
  cbv zeta. cbn [snd].
  assert (∀ target, openTarget env folder = target →
    launched
      match launch env (launched w) (Exec (OpenInCursorWork.cursor (openTarget env folder))) with
      | Some e =>
          requested (Exec (OpenInCursorWork.cursor (openTarget env folder)))
            [failure_toast e] (logged entries w)
      | None =>
          recorded OpenInCursorWork.RECENT_FOLDERS_KEY
            (OpenInCursorWork.updatedRecentFolders folder (recentFolders (store w)))
            (requested (Exec (OpenInCursorWork.cursor (openTarget env folder)))
               [success_toast env folder] (logged entries w))
      end
    = launched w ++ [Exec (OpenInCursorWork.cursor target)]) as Htarget.
  { intros target <-. by destruct (launch env (launched w) _). }
  split; [|split].
  - intros Hexists. apply Htarget. unfold openTarget, workspaceFile. by rewrite Hexists.
  - intros before file after Hexists Hread Hbefore Hfile. apply Htarget.
    unfold openTarget, workspaceFile. rewrite Hexists, Hread.
    rewrite (find_first_match is_workspace_file before file after Hbefore Hfile).
    cbn [fmap option_fmap option_map]. by rewrite join_truthy.
  - intros entries' Hexists Hread Hnone. apply Htarget.
    unfold openTarget, workspaceFile. rewrite Hexists, Hread.
    by rewrite (find_no_match is_workspace_file entries' Hnone).
Qed.

Lemma openInCursor_target_witness :
  let env := example_env [] [] in
  existsSync env "/tmp/A/x" = true
  ∧ readdirSync env "/tmp/A/x"
    = inr ([fs.mkDirent "notes.md" fs.File]
           ++ fs.mkDirent "x.code-workspace" fs.File
              :: [fs.mkDirent "old.code-workspace" fs.File])
  ∧ launched (OpenInCursorWork.openInCursor env folder_x (startup [] ∅)).2
    = [Exec (OpenInCursorWork.cursor "/tmp/A/x/x.code-workspace")].
Proof.
  cbv zeta. split; [reflexivity|]. split; [reflexivity|].
  refine (proj1 (proj2 (openInCursor_target (example_env [] []) folder_x (startup [] ∅)))
    [fs.mkDirent "notes.md" fs.File] (fs.mkDirent "x.code-workspace" fs.File)
    [fs.mkDirent "old.code-workspace" fs.File] eq_refl eq_refl _ eq_refl).
  intros entry Hentry. apply list_elem_of_singleton in Hentry as ->. reflexivity.
Defined.

(** ** The scanner *)

(** C8 — for a root that exists and can be read, [getFoldersFromPath]
    returns, without touching the world, one folder for every entry that
    is a directory, in enumeration order: its name is the entry's name and
    its path the root joined with that name; an entry that is not a
    directory (a file, a link) gives none.  Over a list of such roots the
    scan is the concatenation of these lists in the order of the roots
    (both browsers). *)
Theorem getFoldersFromPath_lists_directories {R}
    (env : Env) (ls : string → list fs.Dirent) (roots : list string) (w : World R) :
  (∀ root, root ∈ roots →
     existsSync env root = true ∧ readdirSync env root = inr (ls root)) →
  let children root :=
    (λ entry, mkFolder (fs.name entry) (path.join [root; fs.name entry]))
      <$> filter (λ entry, fs.isDirectory entry) (ls root) in
  (∀ root, root ∈ roots →
     OpenInCursor.getFoldersFromPath env root w = (Normal (children root), w)
     ∧ OpenInCursorWork.getFoldersFromPath env root w = (Normal (children root), w))
  ∧ flatMap (OpenInCursor.getFoldersFromPath env) roots w
    = (Normal (roots ≫= children), w)
  ∧ flatMap (OpenInCursorWork.getFoldersFromPath env) roots w
    = (Normal (roots ≫= children), w)
  ∧ ∀ folder, folder ∈ roots ≫= children →
      ∃ root entry, root ∈ roots ∧ entry ∈ ls root ∧ fs.type entry = fs.Directory
                    ∧ folder = mkFolder (fs.name entry) (path.join [root; fs.name entry]).
Proof.
  intros Hroots. cbv zeta.
  change (@OpenInCursorWork.getFoldersFromPath env R)
    with (@OpenInCursor.getFoldersFromPath env R).
  split; [|split; [|split]].
  - intros root Hroot. destruct (Hroots root Hroot) as [Hexists Hread].
    by rewrite getFoldersFromPath_run, Hexists, Hread.
  - by apply flatMap_readable.
  - by apply flatMap_readable.
  - intros folder Hfolder. apply list_elem_of_bind in Hfolder as (root & Hfolder & Hroot).
    apply list_elem_of_fmap in Hfolder as (entry & -> & Hentry).
    apply list_elem_of_filter in Hentry as [Hdir Hentry].
    exists root, entry. repeat split; [done..|].
    unfold fs.isDirectory in Hdir. by destruct (fs.type entry).
Qed.

Lemma getFoldersFromPath_lists_directories_witness :
  let env := example_env [] [] in
  (existsSync env "/tmp/A" = true
   ∧ readdirSync env "/tmp/A"
     = inr [fs.mkDirent "x" fs.Directory; fs.mkDirent "y" fs.Directory;
            fs.mkDirent "z.txt" fs.File])
  ∧ flatMap (OpenInCursor.getFoldersFromPath env) ["/tmp/A"] (startup tt ∅)
    = (Normal [mkFolder "x" "/tmp/A/x"; mkFolder "y" "/tmp/A/y"], startup tt ∅).
Proof.
  cbv zeta. split; [split; reflexivity|].
  refine (proj1 (proj2 (getFoldersFromPath_lists_directories (example_env [] [])
    (λ _, [fs.mkDirent "x" fs.Directory; fs.mkDirent "y" fs.Directory;
           fs.mkDirent "z.txt" fs.File]) ["/tmp/A"] (startup tt ∅) _))).
  intros root Hroot. apply list_elem_of_singleton in Hroot as ->. split; reflexivity.
Defined.

(** * More of the code *)

(** ** Clearing, and sessions of the Work browser *)

Section Sessions.
Context (env : Env).

Lemma clearRecentFolders_run (w : World (list Folder)) :
  OpenInCursorWork.clearRecentFolders w
  = (Normal tt,
     mkWorld (mkAppState (folders (store w)) [] (isLoading (store w))) (storage w)
       (inflight w ++ [RemoveItem "recentFolders"]) (toasts w) (console w) (launched w)).
Proof. reflexivity. Qed.

Lemma handleClearRecentFolders_run (w : World (list Folder)) :
  OpenInCursorWork.handleClearRecentFolders w
  = (Normal tt,
     mkWorld (mkAppState (folders (store w)) [] (isLoading (store w))) (storage w)
       (inflight w ++ [RemoveItem "recentFolders"])
       (toasts w ++ [mkToast Success "Recent folders cleared" None]) (console w)
       (launched w)).
Proof. reflexivity. Qed.

Lemma reload_documents {R} (w : World R) :
  recentFolders
    (store (OpenInCursor.loadFolders env
              (restart (OpenInCursor.initialState (JArray [])) (LocalStorage.settle w))).2)
  = reloaded_value w.
Proof.
  set (w1 := restart _ _).
  destruct (loadFolders_run env w1) as (fs & entries & ->).
  unfold reloaded_value, persisted.
  change (storage w1 !! OpenInCursor.RECENT_FOLDERS_KEY)
    with (storage (LocalStorage.settle w) !! "recentFolders").
  destruct (storage (LocalStorage.settle w) !! "recentFolders") as [text|]; [|done].
  destruct (truthy text); [|done]. by destruct (JSON.parse text).
Qed.

Lemma reload_work {R} (w : World R) :
  recentFolders
    (store (OpenInCursorWork.loadFolders env
              (restart (OpenInCursorWork.initialState (JArray [])) (LocalStorage.settle w))).2)
  = reloaded_value w.
Proof.
  set (w1 := restart _ _).
  destruct (loadFolders_work_run env w1) as (fs & entries & ->).
  unfold reloaded_value, persisted.
  change (storage w1 !! OpenInCursorWork.RECENT_FOLDERS_KEY)
    with (storage (LocalStorage.settle w) !! "recentFolders").
  destruct (storage (LocalStorage.settle w) !! "recentFolders") as [text|]; [|done].
  destruct (truthy text); [|done]. by destruct (JSON.parse text).
Qed.

Lemma in_step_reloaded (w : World (list Folder)) :
  in_step w → reloaded_value w = folders_value (recentFolders (store w)).
Proof.
  unfold in_step, reloaded_value. destruct (persisted w) as [text|]; [|by intros ->].
  intros Hparse. destruct text as [|c text]; [done|]. cbn [truthy]. by rewrite Hparse.
Qed.

Lemma persisted_recorded key updated (w : World (list Folder)) :
  key = "recentFolders" → persisted (recorded key updated w) = Some (JSON.stringify updated).
Proof. intros ->. apply settle_recorded. Qed.

Lemma in_step_recorded updated (w : World (list Folder)) :
  in_step (recorded "recentFolders" updated w).
Proof.
  unfold in_step. rewrite persisted_recorded by done. apply parse_stringify.
Qed.

(** One action of the Work browser: the store and the storage are as they
    were, or the folder was inserted, or the list was cleared. *)
Lemma perform_cases action (w : World (list Folder)) :
  ∃ w', perform env action w = (Normal tt, w')
    ∧ folders (store w') = folders (store w)
    ∧ storage w' = storage w
    ∧ ((recentFolders (store w') = recentFolders (store w) ∧ inflight w' = inflight w)
       ∨ (∃ folder, action = OpenFolder folder
            ∧ recentFolders (store w')
              = OpenInCursor.updatedRecentFolders folder (recentFolders (store w))
            ∧ inflight w'
              = inflight w ++ [SetItem "recentFolders"
                                 (JSON.stringify (recentFolders (store w')))])
       ∨ (action = ClearRecentFolders ∧ recentFolders (store w') = []
          ∧ inflight w' = inflight w ++ [RemoveItem "recentFolders"])).
Proof.
  destruct action as [folder|]; cbn [perform].
  - destruct (openInCursor_work_run env folder w) as (entries & ->). cbv zeta.
    destruct (launch env (launched w) _) as [e|]; eexists; (split; [reflexivity|]);
      cbn; (split; [done|]); (split; [done|]).
    + by left.
    + right. left. by exists folder.
  - rewrite handleClearRecentFolders_run. eexists. split; [reflexivity|].
    cbn. split; [done|]. split; [done|]. right. right. done.
Qed.

Lemma for_of_perform (P : World (list Folder) → Prop) :
  (∀ action w w', P w → perform env action w = (Normal tt, w') → P w') →
  ∀ actions w, P w →
    (for_of actions (perform env) w).1 = Normal tt
    ∧ P (for_of actions (perform env) w).2.
Proof.
  intros Hstep actions. induction actions as [|action actions IH]; intros w Hw; [done|].
  cbn [for_of]. rewrite run_bind.
  destruct (perform_cases action w) as (w' & Hrun & _). rewrite Hrun.
  apply IH. by eapply Hstep.
Qed.

Lemma persisted_unfold {R} (w : World R) :
  persisted w = foldl LocalStorage.apply (storage w) (inflight w) !! "recentFolders".
Proof. reflexivity. Qed.

Lemma perform_in_step action (w w' : World (list Folder)) :
  in_step w → perform env action w = (Normal tt, w') → in_step w'.
Proof.
  intros Hw Hrun. destruct (perform_cases action w) as (w'' & Hrun' & _ & Hst & Hcases).
  rewrite Hrun in Hrun'. injection Hrun' as <-.
  unfold in_step in *. rewrite persisted_unfold in *.
  destruct Hcases as [[Hr Hi]|[(folder & _ & Hr & Hi)|(_ & Hr & Hi)]]; rewrite Hst, Hi.
  - by rewrite Hr.
  - rewrite foldl_app. cbn [foldl LocalStorage.apply]. rewrite lookup_insert_eq.
    apply parse_stringify.
  - rewrite foldl_app. cbn [foldl LocalStorage.apply]. by rewrite lookup_delete_eq.
Qed.

End Sessions.

Section SessionInvariants.
Context (env : Env).

Lemma updated_elements folder recent f :
  f ∈ OpenInCursor.updatedRecentFolders folder recent → f = folder ∨ f ∈ recent.
Proof.
  rewrite updated_unfold. intros [->|Hf]%elem_of_cons; [by left|right].
  apply elem_of_take in Hf as (i & Hf & _). apply list_elem_of_lookup_2 in Hf.
  by apply list_elem_of_filter in Hf as [_ ?].
Qed.

Lemma perform_wellformed action (w w' : World (list Folder)) :
  NoDup (path <$> recentFolders (store w)) ∧ List.length (recentFolders (store w)) ≤ 10 →
  perform env action w = (Normal tt, w') →
  NoDup (path <$> recentFolders (store w')) ∧ List.length (recentFolders (store w')) ≤ 10.
Proof.
  intros [Hnd Hlen] Hrun. destruct (perform_cases env action w) as (w'' & Hrun' & _ & _ & Hcases).
  rewrite Hrun in Hrun'. injection Hrun' as <-.
  destruct Hcases as [[-> _]|[(folder & _ & -> & _)|(_ & -> & _)]].
  - done.
  - split; [by apply updated_NoDup | apply updated_length].
  - split; [constructor | cbn; lia].
Qed.

Lemma perform_provenance actions : ∀ (w : World (list Folder)) f,
  f ∈ recentFolders (store (for_of actions (perform env) w).2) →
  f ∈ recentFolders (store w) ∨ f ∈ opened actions.
Proof.
  induction actions as [|action actions IH]; intros w f; [by left|].
  cbn [for_of]. rewrite run_bind.
  destruct (perform_cases env action w) as (w' & -> & _ & _ & Hcases).
  intros [Hf|Hf]%IH.
  - destruct Hcases as [[Hr _]|[(folder & -> & Hr & _)|(_ & Hr & _)]]; rewrite Hr in Hf.
    + by left.
    + apply updated_elements in Hf as [->|Hf]; [right; set_solver | by left].
    + by apply elem_of_nil in Hf.
  - right. unfold opened in *. cbn [mbind list_bind]. apply elem_of_app. by right.
Qed.

Lemma perform_folders actions : ∀ w : World (list Folder),
  folders (store (for_of actions (perform env) w).2) = folders (store w)
  ∧ storage (for_of actions (perform env) w).2 = storage w.
Proof.
  induction actions as [|action actions IH]; intros w; [done|].
  cbn [for_of]. rewrite run_bind.
  destruct (perform_cases env action w) as (w' & -> & Hf & Hs & _).
  destruct (IH w') as [-> ->]. done.
Qed.

Lemma folders_value_shape (l : list Folder) : is_folder_list (folders_value l) = true.
Proof.
  unfold folders_value. cbn [is_folder_list].
  induction l as [|[n p] l IH]; [done|]. cbn [fmap list_fmap forallb]. by rewrite IH.
Qed.

End SessionInvariants.

(** X1 — [clearRecentFolders] empties the recent list of the store, leaves
    the scanned folders alone, so that "All Folders" lists every one of
    them again, and sends one request to remove the key [recentFolders];
    once that request has reached the storage the key is gone whatever was
    stored or still in flight, every other key is as it would have been,
    and a restarted process of either browser loads the empty list. *)
Theorem clearRecentFolders_forgets (env : Env) (w : World (list Folder)) :
  let r := OpenInCursorWork.clearRecentFolders w in
  r.1 = Normal tt
  ∧ recentFolders (store r.2) = []
  ∧ folders (store r.2) = folders (store w)
  ∧ storage r.2 = storage w
  ∧ inflight r.2 = inflight w ++ [RemoveItem "recentFolders"]
  ∧ OpenInCursorWork.otherFolders (recentFolders (store r.2)) (folders (store r.2))
    = folders (store w)
  ∧ storage (LocalStorage.settle r.2) !! "recentFolders" = None
  ∧ (∀ key, key ≠ "recentFolders" →
       storage (LocalStorage.settle r.2) !! key = storage (LocalStorage.settle w) !! key)
  ∧ recentFolders
      (store (OpenInCursorWork.loadFolders env
                (restart (OpenInCursorWork.initialState (JArray []))
                   (LocalStorage.settle r.2))).2) = JArray []
  ∧ recentFolders
      (store (OpenInCursor.loadFolders env
                (restart (OpenInCursor.initialState (JArray []))
                   (LocalStorage.settle r.2))).2) = JArray [].
Proof.
  cbv zeta. rewrite clearRecentFolders_run. cbn [fst snd].
  set (w' := mkWorld _ _ _ _ _ _).
  assert (storage (LocalStorage.settle w') !! "recentFolders" = None) as Hgone.
  { unfold LocalStorage.settle, w'. cbn [storage inflight]. rewrite foldl_app.
    cbn [foldl LocalStorage.apply]. apply lookup_delete_eq. }
  repeat split; try done.
  - unfold w', OpenInCursorWork.otherFolders. cbn [store recentFolders folders].
    apply filter_all. intros f _. set_solver.
  - intros key Hkey. unfold LocalStorage.settle, w'. cbn [storage inflight].
    rewrite foldl_app. cbn [foldl LocalStorage.apply]. by rewrite lookup_delete_ne.
  - rewrite reload_work. unfold reloaded_value, persisted. by rewrite Hgone.
  - rewrite reload_documents. unfold reloaded_value, persisted. by rewrite Hgone.
Qed.

(** X2 — "Clear Recent Folders" returns normally and shows the toast
    "Recent folders cleared" whatever the recent list holds, and launches
    nothing; clearing twice leaves the store, and the storage once the
    requests have reached it, as clearing once does. *)
Theorem handleClearRecentFolders_idempotent (w : World (list Folder)) :
  let once := OpenInCursorWork.handleClearRecentFolders w in
  let twice :=
    (OpenInCursorWork.handleClearRecentFolders;;
     OpenInCursorWork.handleClearRecentFolders) w in
  once.1 = Normal tt
  ∧ twice.1 = Normal tt
  ∧ toasts once.2 = toasts w ++ [mkToast Success "Recent folders cleared" None]
  ∧ launched once.2 = launched w
  ∧ store twice.2 = store once.2
  ∧ storage (LocalStorage.settle twice.2) = storage (LocalStorage.settle once.2).
Proof.
  cbv zeta. rewrite run_bind, !handleClearRecentFolders_run. cbv beta iota.
  rewrite ?handleClearRecentFolders_run. cbn [fst snd store storage inflight toasts launched
    folders isLoading LocalStorage.settle].
  repeat split. rewrite !foldl_app. cbn [foldl LocalStorage.apply].
  apply delete_delete_eq.
Qed.

(** X3 — a session of the Work browser keeps the storage in step with the
    store: from a world where the persisted text is JSON for the recent
    list (or nothing is persisted and the list is empty), any sequence of
    "Open in Cursor" and "Clear Recent Folders" actions, whichever launches
    fail, returns normally and ends in such a world; the text the storage
    then holds is JSON for a list of objects with a string [name] and a
    string [path]; and a process of either browser that starts once the
    requests have reached the storage loads exactly the recent list the
    session ended with. *)
Theorem session_persists (env : Env) (actions : list WorkAction) (w : World (list Folder)) :
  in_step w →
  let r := for_of actions (perform env) w in
  r.1 = Normal tt
  ∧ in_step r.2
  ∧ (∀ text, storage (LocalStorage.settle r.2) !! "recentFolders" = Some text →
       ∃ v, JSON.parse text = Some v ∧ is_folder_list v = true)
  ∧ recentFolders
      (store (OpenInCursorWork.loadFolders env
                (restart (OpenInCursorWork.initialState (JArray []))
                   (LocalStorage.settle r.2))).2)
    = folders_value (recentFolders (store r.2))
  ∧ recentFolders
      (store (OpenInCursor.loadFolders env
                (restart (OpenInCursor.initialState (JArray []))
                   (LocalStorage.settle r.2))).2)
    = folders_value (recentFolders (store r.2)).
Proof.
  intros Hw. cbv zeta.
  destruct (for_of_perform env in_step (λ action w w', perform_in_step env action w w')
              actions w Hw) as [Hr Hstep].
  split; [done|]. split; [done|]. split.
  - intros text Htext. unfold in_step, persisted in Hstep. rewrite Htext in Hstep.
    eexists. split; [exact Hstep | apply folders_value_shape].
  - rewrite reload_work, reload_documents. by rewrite in_step_reloaded.
Qed.

Lemma session_persists_witness :
  let env := example_env ["/tmp/A/y"] [] in
  let actions := [OpenFolder folder_y; OpenFolder folder_x; ClearRecentFolders;
                  OpenFolder (mkFolder "A" "/tmp/A")] in
  let r := for_of actions (perform env) (startup [] ∅) in
  in_step (startup [] ∅)
  ∧ recentFolders (store r.2) = [mkFolder "A" "/tmp/A"]
  ∧ recentFolders
      (store (OpenInCursorWork.loadFolders env
                (restart (OpenInCursorWork.initialState (JArray []))
                   (LocalStorage.settle r.2))).2)
    = folders_value (recentFolders (store r.2)).
Proof.
  cbv zeta. split; [reflexivity|]. split; [reflexivity|].
  exact (proj1 (proj2 (proj2 (proj2 (session_persists (example_env ["/tmp/A/y"] [])
    [OpenFolder folder_y; OpenFolder folder_x; ClearRecentFolders;
     OpenFolder (mkFolder "A" "/tmp/A")] (startup [] ∅) eq_refl))))).
Defined.

(** X4 — a session of the Work browser keeps the recent list well formed:
    from a list with no path twice and at most ten entries, any sequence of
    actions ends with such a list; every entry of it was in the list before
    or is a folder the session opened; the scanned folders and the storage
    itself are never written by an action. *)
Theorem session_keeps_recents_wellformed
    (env : Env) (actions : list WorkAction) (w : World (list Folder)) :
  NoDup (path <$> recentFolders (store w)) →
  List.length (recentFolders (store w)) ≤ 10 →
  let r := for_of actions (perform env) w in
  NoDup (path <$> recentFolders (store r.2))
  ∧ List.length (recentFolders (store r.2)) ≤ 10
  ∧ (∀ f, f ∈ recentFolders (store r.2) → f ∈ recentFolders (store w) ∨ f ∈ opened actions)
  ∧ folders (store r.2) = folders (store w)
  ∧ storage r.2 = storage w.
Proof.
  intros Hnd Hlen. cbv zeta.
  destruct (for_of_perform env
    (λ w, NoDup (path <$> recentFolders (store w)) ∧ List.length (recentFolders (store w)) ≤ 10)
    (λ action w w', perform_wellformed env action w w') actions w (conj Hnd Hlen))
    as (_ & Hnd' & Hlen').
  split; [done|]. split; [done|]. split; [apply perform_provenance|].
  apply perform_folders.
Qed.

Lemma session_keeps_recents_wellformed_witness :
  let env := example_env [] [] in
  let w := startup [folder_x] ∅ in
  let r := for_of [OpenFolder folder_y; OpenFolder folder_x] (perform env) w in
  NoDup (path <$> recentFolders (store w))
  ∧ recentFolders (store r.2) = [folder_x; folder_y]
  ∧ NoDup (path <$> recentFolders (store r.2)).
Proof.
  cbv zeta.
  assert (NoDup (path <$> recentFolders (store (startup [folder_x] ∅)))) as Hnd
    by (apply NoDup_singleton).
  split; [exact Hnd|]. split; [reflexivity|].
  exact (proj1 (session_keeps_recents_wellformed (example_env [] [])
    [OpenFolder folder_y; OpenFolder folder_x] (startup [folder_x] ∅) Hnd
    ltac:(cbn; lia))).
Defined.

(** ** The scan and the load, whatever the roots are *)

Section ScanAnyRoot.
Context (env : Env) {R : Type}.

Lemma getFoldersFromPath_scanned dirPath (w : World R) :
  OpenInCursor.getFoldersFromPath env dirPath w
  = (Normal (scanned env dirPath), logged (scan_log env dirPath) w).
Proof.
  rewrite getFoldersFromPath_run. unfold scanned, scan_log.
  destruct (existsSync env dirPath); [|done].
  destruct (readdirSync env dirPath); [done|]. by rewrite logged_nil.
Qed.

Lemma flatMap_scanned roots : ∀ w : World R,
  flatMap (OpenInCursor.getFoldersFromPath env) roots w
  = (Normal (roots ≫= scanned env), logged (roots ≫= scan_log env) w).
Proof.
  induction roots as [|root roots IH]; intros w; [by rewrite logged_nil|].
  cbn [flatMap]. rewrite run_bind, getFoldersFromPath_scanned, run_bind, IH.
  by rewrite logged_logged.
Qed.

End ScanAnyRoot.

(** X5 — the scan never fails and only reads: for any list of roots it
    returns normally, a root that does not exist gives no folder and one
    warning on the console, a root that cannot be read gives no folder and
    one error line, and the other roots are scanned all the same; the
    result is the concatenation, in root order, of what each root gives,
    and store, storage, toasts and launches are untouched (both
    browsers). *)
Theorem scan_skips_unreadable_roots {R} (env : Env) (roots : list string) (w : World R) :
  let found root :=
    if existsSync env root then
      match readdirSync env root with
      | inr entries =>
          (λ entry, mkFolder (fs.name entry) (path.join [root; fs.name entry]))
            <$> filter (λ entry, fs.isDirectory entry) entries
      | inl _ => []
      end
    else [] in
  let lines root :=
    if existsSync env root then
      match readdirSync env root with
      | inr _ => []
      | inl err => [Error ("Error reading directory " +:+ root +:+ ":") err]
      end
    else [Warn ("Path does not exist: " +:+ root)] in
  let scan (r : completion (list Folder) * World R) :=
    r.1 = Normal (roots ≫= found)
    ∧ console r.2 = console w ++ (roots ≫= lines)
    ∧ store r.2 = store w ∧ storage r.2 = storage w ∧ inflight r.2 = inflight w
    ∧ toasts r.2 = toasts w ∧ launched r.2 = launched w in
  scan (flatMap (OpenInCursor.getFoldersFromPath env) roots w)
  ∧ scan (flatMap (OpenInCursorWork.getFoldersFromPath env) roots w).
Proof.
  cbv zeta.
  change (@OpenInCursorWork.getFoldersFromPath env R)
    with (@OpenInCursor.getFoldersFromPath env R).
  rewrite flatMap_scanned. cbn [fst snd logged store storage inflight toasts console launched].
  repeat split.
Qed.

Section LoadAnyRoot.
Context (env : Env).

Lemma loadFolders_scanned (w : World json) :
  let roots := OpenInCursor.SEARCH_PATHS env in
  let fs := roots ≫= scanned env in
  let entries := roots ≫= scan_log env in
  OpenInCursor.loadFolders env w
  = (Normal tt,
     match storage w !! "recentFolders" with
     | Some stored =>
         if truthy stored then
           match JSON.parse stored with
           | Some v => loaded fs v [] entries w
           | None =>
               loaded fs (recentFolders (store w))
                 [mkToast Failure "Error reading folders"
                    (Some (message_of (syntaxError env stored)))] entries w
           end
         else loaded fs (recentFolders (store w)) [] entries w
     | None => loaded fs (recentFolders (store w)) [] entries w
     end).
Proof.
  cbv zeta. pose proof (flatMap_scanned env (OpenInCursor.SEARCH_PATHS env) w) as Hscan.
  revert Hscan.
  generalize (OpenInCursor.SEARCH_PATHS env ≫= scanned env)
    (OpenInCursor.SEARCH_PATHS env ≫= scan_log env).
  intros fs entries Hscan.
  unfold OpenInCursor.loadFolders, try_finally, try_catch.
  rewrite run_bind, Hscan, run_bind. unfold loaded.
  change (OpenInCursor.setFolders fs (logged entries w))
    with (Normal tt, mkWorld (mkAppState fs (recentFolders (store w)) (isLoading (store w)))
            (storage w) (inflight w) (toasts w) (console w ++ entries) (launched w)).
  cbv iota beta. rewrite run_bind. unfold LocalStorage.getItem at 1.
  cbv iota beta. cbn [storage].
  change OpenInCursor.RECENT_FOLDERS_KEY with "recentFolders".
  destruct (storage w !! "recentFolders") as [stored|];
    [|cbn; by rewrite app_nil_r].
  destruct (truthy stored); [|cbn; by rewrite app_nil_r].
  rewrite run_bind. unfold JSON_parse.
  destruct (JSON.parse stored) as [v|]; cbn; [by rewrite app_nil_r|done].
Qed.

Lemma loadFolders_work_scanned (w : World json) :
  let roots := OpenInCursorWork.SEARCH_PATHS env in
  let fs := roots ≫= scanned env in
  let entries := roots ≫= scan_log env in
  OpenInCursorWork.loadFolders env w
  = (Normal tt,
     match storage w !! "recentFolders" with
     | Some stored =>
         if truthy stored then
           match JSON.parse stored with
           | Some v => loaded fs v [] entries w
           | None =>
               loaded fs (recentFolders (store w))
                 [mkToast Failure "Error reading folders"
                    (Some (message_of (syntaxError env stored)))] entries w
           end
         else loaded fs (recentFolders (store w)) [] entries w
     | None => loaded fs (recentFolders (store w)) [] entries w
     end).
Proof.
  cbv zeta. pose proof (flatMap_scanned env (OpenInCursorWork.SEARCH_PATHS env) w) as Hscan.
  revert Hscan.
  generalize (OpenInCursorWork.SEARCH_PATHS env ≫= scanned env)
    (OpenInCursorWork.SEARCH_PATHS env ≫= scan_log env).
  intros fs entries Hscan.
  unfold OpenInCursorWork.loadFolders, try_finally, try_catch.
  change (@OpenInCursorWork.getFoldersFromPath env json)
    with (@OpenInCursor.getFoldersFromPath env json).
  rewrite run_bind, Hscan, run_bind. unfold loaded.
  change (OpenInCursorWork.setFolders fs (logged entries w))
    with (Normal tt, mkWorld (mkAppState fs (recentFolders (store w)) (isLoading (store w)))
            (storage w) (inflight w) (toasts w) (console w ++ entries) (launched w)).
  cbv iota beta. rewrite run_bind. unfold LocalStorage.getItem at 1.
  cbv iota beta. cbn [storage].
  change OpenInCursorWork.RECENT_FOLDERS_KEY with "recentFolders".
  destruct (storage w !! "recentFolders") as [stored|];
    [|cbn; by rewrite app_nil_r].
  destruct (truthy stored); [|cbn; by rewrite app_nil_r].
  rewrite run_bind. unfold JSON_parse.
  destruct (JSON.parse stored) as [v|]; cbn; [by rewrite app_nil_r|done].
Qed.

End LoadAnyRoot.

(** X6 — [loadFolders] only reads: whatever the file system and the
    storage hold, it returns normally, puts into the store the scan of its
    search paths (a missing or unreadable path contributing nothing but a
    console line) and ends with [isLoading] false; it makes no request to
    the storage, launches nothing, and shows at most one toast, the failure
    toast for a stored text that is not JSON (both browsers, each over its
    own search paths). *)
Theorem loadFolders_only_reads (env : Env) (w : World json) :
  let outcome roots (r : completion unit * World json) :=
    r.1 = Normal tt
    ∧ folders (store r.2) = roots ≫= scanned env
    ∧ isLoading (store r.2) = false
    ∧ console r.2 = console w ++ (roots ≫= scan_log env)
    ∧ storage r.2 = storage w
    ∧ inflight r.2 = inflight w
    ∧ launched r.2 = launched w
    ∧ (toasts r.2 = toasts w
       ∨ ∃ text, storage w !! "recentFolders" = Some text ∧ JSON.parse text = None
           ∧ toasts r.2
             = toasts w ++ [mkToast Failure "Error reading folders"
                              (Some (message_of (syntaxError env text)))]) in
  outcome (OpenInCursor.SEARCH_PATHS env) (OpenInCursor.loadFolders env w)
  ∧ outcome (OpenInCursorWork.SEARCH_PATHS env) (OpenInCursorWork.loadFolders env w).
Proof.
  cbv zeta. rewrite loadFolders_scanned, loadFolders_work_scanned. cbv zeta.
  destruct (storage w !! "recentFolders") as [text|].
  - destruct (truthy text).
    + destruct (JSON.parse text) as [v|] eqn:Hparse; cbn; rewrite ?app_nil_r;
        repeat split; eauto.
    + cbn. rewrite ?app_nil_r. repeat split; eauto.
  - cbn. rewrite ?app_nil_r. repeat split; eauto.
Qed.

(** ** The open actions when the launch succeeds *)

Section OpenSucceeds.
Context (env : Env).

Lemma otherFolders_elem recent all f :
  f ∈ OpenInCursor.otherFolders recent all ↔ f ∈ all ∧ path f ∉ path <$> recent.
Proof.
  unfold OpenInCursor.otherFolders. cbv zeta.
  rewrite list_elem_of_filter, elem_of_list_to_set. tauto.
Qed.

Lemma updated_listed folder recent all f :
  f ∈ OpenInCursor.otherFolders (OpenInCursor.updatedRecentFolders folder recent) all →
  path f ≠ path folder.
Proof.
  intros [_ Hf]%otherFolders_elem Heq. apply Hf. rewrite updated_unfold.
  rewrite fmap_cons, Heq. by left.
Qed.

(** The entry [findWorkspaceFileInFolder] picks is a workspace file of the
    folder. *)
Lemma workspaceFile_Some folderPath file :
  workspaceFile env folderPath = Some file →
  ∃ entries entry,
    existsSync env folderPath = true ∧ readdirSync env folderPath = inr entries
    ∧ entry ∈ entries ∧ fs.type entry = fs.File
    ∧ endsWith (fs.name entry) ".code-workspace" = true
    ∧ file = path.join [folderPath; fs.name entry].
Proof.
  unfold workspaceFile. destruct (existsSync env folderPath); [|done].
  destruct (readdirSync env folderPath) as [err|entries]; [done|].
  destruct (find is_workspace_file entries) as [entry|] eqn:Hfind; [|done].
  intros [= <-]. apply find_some in Hfind as [Hin Hentry].
  apply andb_true_iff in Hentry as [Hfile Hends].
  exists entries, entry. repeat split; try done.
  - by apply list_elem_of_In.
  - unfold fs.isFile in Hfile. by destruct (fs.type entry).
Qed.

Lemma workspaceFile_truthy folderPath file :
  workspaceFile env folderPath = Some file → truthy file = true.
Proof.
  intros (entries & entry & _ & _ & _ & _ & _ & ->)%workspaceFile_Some.
  apply join_truthy.
Qed.

Lemma findWorkspaceFileInFolder_log {R} folderPath (w : World R) :
  OpenInCursorWork.findWorkspaceFileInFolder env folderPath w
  = (Normal (workspaceFile env folderPath),
     logged
       (if existsSync env folderPath then
          match readdirSync env folderPath with
          | inl err =>
              [Error ("Error checking for workspace file in " +:+ folderPath +:+ ":") err]
          | inr _ => []
          end
        else []) w).
Proof.
  unfold OpenInCursorWork.findWorkspaceFileInFolder, workspaceFile, try_catch, readdir.
  destruct (existsSync env folderPath); cbn [negb].
  - rewrite run_bind. destruct (readdirSync env folderPath) as [err|entries].
    + reflexivity.
    + rewrite logged_nil. unfold is_workspace_file.
      cbn. by destruct (find _ entries).
  - by rewrite logged_nil.
Qed.

End OpenSucceeds.

(** X7 — when the launch succeeds, [openInCursor] of the Documents browser
    has asked the Opener once for the folder's path with the application
    "Cursor", shows the success toast with the path, and has inserted the
    folder: it is first in the recent list, every other entry was there
    before and has another path, the new list is on its way to the storage
    as JSON, and no folder with that path is listed under "All Folders" any
    more.  The scanned folders, the storage itself and the console are as
    they were. *)
Theorem openInCursor_records_the_folder
    (env : Env) (folder : Folder) (w : World (list Folder)) :
  launch env (launched w) (Open (path folder) "Cursor") = None →
  let r := OpenInCursor.openInCursor env folder w in
  let recent := recentFolders (store r.2) in
  r.1 = Normal tt
  ∧ launched r.2 = launched w ++ [Open (path folder) "Cursor"]
  ∧ toasts r.2 = toasts w ++ [mkToast Success "Opened in Cursor" (Some (path folder))]
  ∧ recent !! 0 = Some folder
  ∧ (∀ i f, recent !! S i = Some f → f ∈ recentFolders (store w) ∧ path f ≠ path folder)
  ∧ inflight r.2 = inflight w ++ [SetItem "recentFolders" (JSON.stringify recent)]
  ∧ (∀ f, f ∈ OpenInCursor.otherFolders recent (folders (store r.2)) →
       path f ≠ path folder)
  ∧ folders (store r.2) = folders (store w)
  ∧ storage r.2 = storage w
  ∧ console r.2 = console w.
Proof.
  intros Hlaunch. cbv zeta. rewrite openInCursor_run. cbv zeta. rewrite Hlaunch.
  cbn [fst snd recorded requested store recentFolders folders launched toasts inflight
       storage console].
  do 4 (split; [done|]). split; [|split; [done|]; split; [|done]].
  - intros i f Hf. rewrite updated_unfold, lookup_cons in Hf.
    apply list_elem_of_lookup_2 in Hf. split; [|by eapply updated_tail_paths].
    apply elem_of_take in Hf as (j & Hf & _). apply list_elem_of_lookup_2 in Hf.
    by apply list_elem_of_filter in Hf as [_ ?].
  - intros f Hf. by apply updated_listed in Hf.
Qed.

Lemma openInCursor_records_the_folder_witness :
  let env := example_env [] [] in
  let w := startup [folder_x; folder_y] ∅ in
  let r := OpenInCursor.openInCursor env folder_y w in
  launch env (launched w) (Open (path folder_y) "Cursor") = None
  ∧ recentFolders (store r.2) = [folder_y; folder_x]
  ∧ toasts r.2 = [mkToast Success "Opened in Cursor" (Some "/tmp/A/y")]
  ∧ inflight r.2 = [SetItem "recentFolders" (JSON.stringify [folder_y; folder_x])].
Proof.
  cbv zeta. split; [reflexivity|]. split; [reflexivity|].
  pose proof (openInCursor_records_the_folder (example_env [] []) folder_y
    (startup [folder_x; folder_y] ∅) eq_refl) as (_ & _ & Htoasts & _ & _ & Hinflight & _).
  split; [exact Htoasts | exact Hinflight].
Defined.

(** X8 — when the command succeeds, [openInCursor] of the Work browser has
    run [cursor] once, on the workspace file if [findWorkspaceFileInFolder]
    found one and on the folder's path otherwise; the toast names what was
    opened ("Opened workspace in Cursor" with the file, "Opened in Cursor"
    with the path); and what is inserted into the recent list is the
    folder itself in both cases, never the workspace file.  The test
    [if (workspaceFile)] fails for [null] only: the path returned is never
    the empty string. *)
Theorem openInCursor_work_records_the_folder
    (env : Env) (folder : Folder) (w : World (list Folder)) :
  let found := (OpenInCursorWork.findWorkspaceFileInFolder env (path folder) w).1 in
  let target :=
    match found with
    | Normal (Some file) => file
    | _ => path folder
    end in
  launch env (launched w) (Exec (OpenInCursorWork.cursor target)) = None →
  let r := OpenInCursorWork.openInCursor env folder w in
  let recent := recentFolders (store r.2) in
  r.1 = Normal tt
  ∧ found ≠ Normal (Some EmptyString)
  ∧ launched r.2 = launched w ++ [Exec (OpenInCursorWork.cursor target)]
  ∧ toasts r.2
    = toasts w
      ++ [match found with
          | Normal (Some file) => mkToast Success "Opened workspace in Cursor" (Some file)
          | _ => mkToast Success "Opened in Cursor" (Some (path folder))
          end]
  ∧ recent !! 0 = Some folder
  ∧ recent = OpenInCursorWork.updatedRecentFolders folder (recentFolders (store w))
  ∧ inflight r.2 = inflight w ++ [SetItem "recentFolders" (JSON.stringify recent)]
  ∧ folders (store r.2) = folders (store w)
  ∧ storage r.2 = storage w.
Proof.
  cbv zeta. rewrite findWorkspaceFileInFolder_log. cbn [fst].
  destruct (openInCursor_work_run env folder w) as (entries & ->). cbv zeta.
  unfold openTarget, success_toast.
  destruct (workspaceFile env (path folder)) as [file|] eqn:Hfile.
  - rewrite (workspaceFile_truthy env _ _ Hfile). intros ->.
    cbn [fst snd recorded requested logged store recentFolders folders launched toasts
         inflight storage console].
    repeat split; try done.
    intros [= ->]. by apply workspaceFile_truthy in Hfile.
  - intros ->.
    cbn [fst snd recorded requested logged store recentFolders folders launched toasts
         inflight storage console].
    repeat split; done.
Qed.

Lemma openInCursor_work_records_the_folder_witness :
  let env := example_env [] [] in
  let w := startup [folder_y] ∅ in
  let r := OpenInCursorWork.openInCursor env folder_x w in
  launch env (launched w) (Exec (OpenInCursorWork.cursor "/tmp/A/x/x.code-workspace")) = None
  ∧ launched r.2 = [Exec (OpenInCursorWork.cursor "/tmp/A/x/x.code-workspace")]
  ∧ toasts r.2
    = [mkToast Success "Opened workspace in Cursor" (Some "/tmp/A/x/x.code-workspace")]
  ∧ recentFolders (store r.2) = [folder_x; folder_y].
Proof.
  cbv zeta. split; [reflexivity|].
  pose proof (openInCursor_work_records_the_folder (example_env [] []) folder_x
    (startup [folder_y] ∅) eq_refl) as (_ & _ & Hlaunched & Htoasts & _ & Hrecent & _).
  split; [exact Hlaunched|]. split; [exact Htoasts | exact Hrecent].
Defined.

(** X9 — [findWorkspaceFileInFolder] never throws and changes nothing but
    the console.  A path it returns is never empty and is the folder's path
    joined with the name of an entry of the folder that is a file and whose
    name ends in [.code-workspace]; a directory of that name is not taken.
    For a folder that does not exist it returns [null] and writes nothing;
    for a folder that cannot be read it returns [null] after one line on
    the console, and [openInCursor] then runs [cursor] on the folder's own
    path. *)
Theorem findWorkspaceFileInFolder_sound
    (env : Env) (folder : Folder) (w : World (list Folder)) :
  let r := OpenInCursorWork.findWorkspaceFileInFolder env (path folder) w in
  (∃ result, r.1 = Normal result)
  ∧ store r.2 = store w ∧ storage r.2 = storage w ∧ inflight r.2 = inflight w
  ∧ toasts r.2 = toasts w ∧ launched r.2 = launched w
  ∧ (∀ file, r.1 = Normal (Some file) →
       file ≠ EmptyString ∧ console r.2 = console w
       ∧ ∃ entries entry,
           readdirSync env (path folder) = inr entries ∧ entry ∈ entries
           ∧ fs.type entry = fs.File
           ∧ endsWith (fs.name entry) ".code-workspace" = true
           ∧ file = path.join [path folder; fs.name entry])
  ∧ (existsSync env (path folder) = false → r = (Normal None, w))
  ∧ (∀ err, existsSync env (path folder) = true →
       readdirSync env (path folder) = inl err →
       r.1 = Normal None
       ∧ console r.2
         = console w
           ++ [Error ("Error checking for workspace file in " +:+ path folder +:+ ":") err]
       ∧ launched (OpenInCursorWork.openInCursor env folder w).2
         = launched w ++ [Exec (OpenInCursorWork.cursor (path folder))]).
Proof.
  cbv zeta. rewrite findWorkspaceFileInFolder_log. cbn [fst snd logged store storage
    inflight toasts launched console].
  split; [eauto|]. do 5 (split; [done|]). split; [|split].
  - intros file [= Hfile]. split.
    { intros ->. by apply workspaceFile_truthy in Hfile. }
    destruct (workspaceFile_Some env _ _ Hfile) as (entries & entry & He & Hr & ?).
    rewrite He, Hr, app_nil_r. split; [done|]. exists entries, entry. done.
  - intros He. unfold workspaceFile. rewrite He. by rewrite logged_nil.
  - intros err He Hr. unfold workspaceFile. rewrite He, Hr. split; [done|]. split; [done|].
    destruct (openInCursor_work_run env folder w) as (entries & ->). cbv zeta.
    unfold openTarget, workspaceFile. rewrite He, Hr.
    by destruct (launch env (launched w) _).
Qed.

Lemma findWorkspaceFileInFolder_sound_witness :
  let env := example_env [] [] in
  let w : World (list Folder) := startup [] ∅ in
  let r := OpenInCursorWork.findWorkspaceFileInFolder env (path folder_x) w in
  r.1 = Normal (Some "/tmp/A/x/x.code-workspace")
  ∧ "/tmp/A/x/x.code-workspace" ≠ EmptyString
  ∧ console r.2 = [].
Proof.
  cbv zeta. split; [reflexivity|].
  destruct (proj1 (proj2 (proj2 (proj2 (proj2 (proj2 (proj2
    (findWorkspaceFileInFolder_sound (example_env [] []) folder_x (startup [] ∅))))))))
    "/tmp/A/x/x.code-workspace" eq_refl) as (Hne & Hconsole & _).
  split; [exact Hne | exact Hconsole].
Defined.

Section EmptySelection.
Context (env : Env) {R : Type}.


End EmptySelection.


(** ** The Finder selection *)

Section Trim.
Import FinderSelection.

Lemma trimStart_lead s :
  trimStart s = match lead s with Some r => trimStart r | None => s end.
Proof.
  destruct s as [|c1 [|c2 [|c3 r3]]]; cbn [trimStart lead]; try done.
  - by destruct (space1 c1).
  - destruct (space1 c1); [done|]. by destruct (space2 c1 c2).
  - destruct (space1 c1); [done|]. destruct (space2 c1 c2); [done|].
    by destruct (space3 c1 c2 c3).
Qed.

Lemma lead_Some s r :
  lead s = Some r → ∃ pre, s = pre +:+ r ∧ 0 < String.length pre.
Proof.
  destruct s as [|c1 [|c2 [|c3 r3]]]; cbn [lead]; try done.
  - destruct (space1 c1); [|done]. intros [= <-]. exists (String c1 EmptyString).
    split; [done | cbn; lia].
  - destruct (space1 c1).
    { intros [= <-]. exists (String c1 EmptyString). split; [done | cbn; lia]. }
    destruct (space2 c1 c2); [|done]. intros [= <-].
    exists (String c1 (String c2 EmptyString)). split; [done | cbn; lia].
  - destruct (space1 c1).
    { intros [= <-]. exists (String c1 EmptyString). split; [done | cbn; lia]. }
    destruct (space2 c1 c2).
    { intros [= <-]. exists (String c1 (String c2 EmptyString)). split; [done | cbn; lia]. }
    destruct (space3 c1 c2 c3); [|done]. intros [= <-].
    exists (String c1 (String c2 (String c3 EmptyString))). split; [done | cbn; lia].
Qed.

Lemma lead_length s r : lead s = Some r → String.length r < String.length s.
Proof.
  intros (pre & -> & Hpre)%lead_Some. rewrite length_append. lia.
Qed.

(** Induction along the white space [trimStart] skips. *)
Lemma lead_ind (P : string → Prop) :
  (∀ s, (∀ r, lead s = Some r → P r) → P s) → ∀ s, P s.
Proof.
  intros Hstep s. remember (String.length s) as n eqn:Hn.
  revert s Hn. induction n as [n IH] using lt_wf_ind. intros s ->.
  apply Hstep. intros r Hr. eapply IH; [|reflexivity]. by apply lead_length.
Qed.

Lemma trimStart_suffix s : ∃ pre, s = pre +:+ trimStart s.
Proof.
  induction s as [s IH] using lead_ind. rewrite trimStart_lead.
  destruct (lead s) as [r|] eqn:Hlead; [|by exists EmptyString].
  destruct (IH r eq_refl) as (pre' & Hr).
  apply lead_Some in Hlead as (pre & -> & _).
  exists (pre +:+ pre'). by rewrite append_assoc, <- Hr.
Qed.

Lemma trimStart_length s : String.length (trimStart s) ≤ String.length s.
Proof.
  destruct (trimStart_suffix s) as (pre & Hs). rewrite Hs at 2.
  rewrite length_append. lia.
Qed.

Lemma lead_trimStart s : lead (trimStart s) = None.
Proof.
  induction s as [s IH] using lead_ind. rewrite trimStart_lead.
  destruct (lead s) as [r|] eqn:Hlead; [by apply IH | done].
Qed.

Lemma trimStart_fixed s : trimStart s = s ↔ lead s = None.
Proof.
  split.
  - intros <-. apply lead_trimStart.
  - intros Hs. by rewrite trimStart_lead, Hs.
Qed.

Lemma trimStart_idem s : trimStart (trimStart s) = trimStart s.
Proof. apply trimStart_fixed, lead_trimStart. Qed.

(** A string that starts with white space has no prefix that does not,
    the empty one apart. *)
Lemma lead_prefix p rest : lead (p +:+ rest) = None → lead p = None.
Proof.
  destruct p as [|c1 [|c2 [|c3 p3]]]; try done;
    repeat first [rewrite append_cons | rewrite append_nil_l]; cbn [lead].
  - destruct (space1 c1); [by destruct rest as [|? [|? ?]] | done].
  - destruct (space1 c1); [done|]. destruct (space2 c1 c2); [|done].
    by destruct rest.
  - destruct (space1 c1); [done|]. destruct (space2 c1 c2); [done|].
    by destruct (space3 c1 c2 c3).
Qed.

Lemma trimEnd_cons c r :
  trimEnd (String c r)
  = if bool_decide (trimStart (String c (trimEnd r)) = EmptyString) then EmptyString
    else String c (trimEnd r).
Proof. reflexivity. Qed.

Lemma trimEnd_prefix s : ∃ rest, s = trimEnd s +:+ rest.
Proof.
  induction s as [|c r (rest & IH)]; [by exists EmptyString|].
  rewrite trimEnd_cons. case_bool_decide.
  - by exists (String c r).
  - exists rest. rewrite append_cons. by rewrite <- IH.
Qed.

Lemma trimEnd_length s : String.length (trimEnd s) ≤ String.length s.
Proof.
  destruct (trimEnd_prefix s) as (rest & Hs). rewrite Hs at 2.
  rewrite length_append. lia.
Qed.

(** What [trimEnd] keeps is not white space only. *)
Lemma trimEnd_kept s : trimEnd s ≠ EmptyString → trimStart (trimEnd s) ≠ EmptyString.
Proof.
  destruct s as [|c r]; [done|]. rewrite trimEnd_cons. by case_bool_decide.
Qed.

Lemma trimEnd_idem s : trimEnd (trimEnd s) = trimEnd s.
Proof.
  induction s as [|c r IH]; [done|]. rewrite trimEnd_cons. case_bool_decide as Hc; [done|].
  rewrite trimEnd_cons, IH. by rewrite bool_decide_false.
Qed.

Lemma trimStart_trimEnd s : trimStart s = s → trimStart (trimEnd s) = trimEnd s.
Proof.
  intros Hs%trimStart_fixed. apply trimStart_fixed.
  destruct (trimEnd_prefix s) as (rest & Hrest). rewrite Hrest in Hs.
  by apply lead_prefix in Hs.
Qed.

Lemma trim_idem s : trim (trim s) = trim s.
Proof.
  unfold trim. rewrite (trimStart_trimEnd (trimStart s)) by apply trimStart_idem.
  apply trimEnd_idem.
Qed.

Lemma append_nil_r s : s +:+ EmptyString = s.
Proof. induction s as [|c s IH]; [done|]. by rewrite append_cons, IH. Qed.

Lemma append_length_l a b : String.length (a +:+ b) = String.length b → a = EmptyString.
Proof. rewrite length_append. destruct a; cbn; [done | lia]. Qed.

(** A string that [trim] leaves alone has no white space at either end. *)
Lemma trim_fixed s : trim s = s → trimStart s = s ∧ trimEnd s = s.
Proof.
  unfold trim. intros Hs.
  pose proof (trimStart_length s) as H1. pose proof (trimEnd_length (trimStart s)) as H2.
  rewrite Hs in H2.
  destruct (trimStart_suffix s) as (pre & Hpre).
  assert (pre = EmptyString) as ->.
  { apply (append_length_l pre (trimStart s)). rewrite <- Hpre. lia. }
  rewrite append_nil_l in Hpre. rewrite <- Hpre in Hs. by rewrite <- Hpre.
Qed.

End Trim.

Section Lines.
Import FinderSelection.

Lemma space2_newline c1 : space2 c1 newline = false.
Proof. unfold space2. apply andb_false_r. Qed.

Lemma space3_newline_2 c1 c3 : space3 c1 newline c3 = false.
Proof.
  unfold space3. change (code newline) with 10%N.
  by destruct (code c1 =? 225)%N, (code c1 =? 226)%N, (code c1 =? 227)%N,
    (code c1 =? 239)%N.
Qed.

Lemma space3_newline_3 c1 c2 : space3 c1 c2 newline = false.
Proof.
  unfold space3. change (code newline) with 10%N.
  by destruct (code c1 =? 225)%N, (code c1 =? 226)%N, (code c1 =? 227)%N,
    (code c1 =? 239)%N, (code c2 =? 154)%N, (code c2 =? 128)%N, (code c2 =? 129)%N,
    (code c2 =? 187)%N.
Qed.

(** A line feed after a string that does not start with white space does
    not make it start with white space. *)
Lemma lead_app_newline x r :
  lead x = None → x ≠ EmptyString → lead (x +:+ String newline r) = None.
Proof.
  destruct x as [|c1 [|c2 [|c3 x3]]]; try done; intros Hx _; revert Hx;
    repeat first [rewrite append_cons | rewrite append_nil_l]; cbn [lead].
  - destruct (space1 c1); [done|]. rewrite space2_newline.
    destruct r; [done|]. by rewrite space3_newline_2.
  - destruct (space1 c1); [done|]. destruct (space2 c1 c2); [done|].
    by rewrite space3_newline_3.
  - destruct (space1 c1); [done|]. destruct (space2 c1 c2); [done|].
    by destruct (space3 c1 c2 c3).
Qed.

Lemma lead_newline_app a z r :
  lead (a +:+ String newline z) = Some r →
  (a = EmptyString ∧ r = z) ∨ (∃ a', lead a = Some a' ∧ r = a' +:+ String newline z).
Proof.
  destruct a as [|c1 [|c2 [|c3 a3]]];
    repeat first [rewrite append_cons | rewrite append_nil_l]; cbn [lead].
  - intros [= <-]. by left.
  - destruct (space1 c1).
    { intros [= <-]. right. by exists EmptyString. }
    rewrite space2_newline. destruct z; [done|]. by rewrite space3_newline_2.
  - destruct (space1 c1).
    { intros [= <-]. right. by exists (String c2 EmptyString). }
    destruct (space2 c1 c2).
    { intros [= <-]. right. by exists EmptyString. }
    by rewrite space3_newline_3.
  - destruct (space1 c1).
    { intros [= <-]. right. by eexists. }
    destruct (space2 c1 c2).
    { intros [= <-]. right. by eexists. }
    destruct (space3 c1 c2 c3); [|done].
    intros [= <-]. right. by eexists.
Qed.

(** What is before a line feed that is followed by something else than
    white space is not white space only. *)
Lemma trimStart_newline_app z : trimStart z ≠ EmptyString →
  ∀ a, trimStart (a +:+ String newline z) ≠ EmptyString.
Proof.
  intros Hz a. induction a as [a IH] using lead_ind. rewrite trimStart_lead.
  destruct (lead (a +:+ String newline z)) as [r|] eqn:Hlead.
  - apply lead_newline_app in Hlead as [[_ ->]|(a' & Ha & ->)]; [done|]. by apply IH.
  - by destruct a.
Qed.

Lemma trimEnd_newline_app x y : trimEnd y ≠ EmptyString →
  trimEnd (x +:+ String newline y) = x +:+ String newline (trimEnd y).
Proof.
  intros Hy%trimEnd_kept. induction x as [|c x IH].
  - rewrite !append_nil_l, trimEnd_cons. rewrite bool_decide_false; [done|].
    apply (trimStart_newline_app _ Hy EmptyString).
  - rewrite !append_cons, trimEnd_cons, IH. rewrite bool_decide_false; [done|].
    apply (trimStart_newline_app _ Hy (String c x)).
Qed.

Lemma trimEnd_app_blank x blank :
  trimEnd x = x → trimEnd blank = EmptyString → trimEnd (x +:+ blank) = x.
Proof.
  intros Hx Hblank. induction x as [|c x IH]; [by rewrite append_nil_l|].
  rewrite trimEnd_cons in Hx. case_bool_decide as Hc; [done|]. injection Hx as Hx.
  rewrite append_cons, trimEnd_cons, IH by done. rewrite Hx in Hc.
  by rewrite bool_decide_false.
Qed.

Lemma includes_app a b c : includes (a +:+ b) c = includes a c || includes b c.
Proof.
  induction a as [|c' a IH]; [done|]. rewrite append_cons. cbn [includes].
  by rewrite IH, orb_assoc.
Qed.

Lemma includes_trim s c : includes s c = false → includes (trim s) c = false.
Proof.
  intros Hs. unfold trim.
  destruct (trimStart_suffix s) as (pre & Hpre).
  destruct (trimEnd_prefix (trimStart s)) as (post & Hpost).
  rewrite Hpre, Hpost, !includes_app in Hs.
  by apply orb_false_elim in Hs as [_ [? _]%orb_false_elim].
Qed.

(** No piece of [s.split(sep)] includes the separator. *)
Lemma split_pieces sep s : Forall (λ x, includes x sep = false) (String_split sep s).
Proof.
  induction s as [|c s IH]; cbn [String_split]; [by repeat constructor|].
  destruct (Ascii.eqb c sep) eqn:Hc; [by constructor|].
  destruct (String_split sep s) as [|x xs]; [repeat constructor; cbn; by rewrite Hc|].
  apply Forall_cons in IH as [Hx Hxs]. constructor; [|done]. cbn. by rewrite Hc.
Qed.

Lemma split_line sep x : includes x sep = false → String_split sep x = [x].
Proof.
  induction x as [|c x IH]; [done|]. cbn [includes String_split].
  intros [-> Hx]%orb_false_elim. by rewrite IH.
Qed.

Lemma split_app_sep sep x rest :
  includes x sep = false →
  String_split sep (x +:+ String sep rest) = x :: String_split sep rest.
Proof.
  induction x as [|c x IH].
  - intros _. rewrite append_nil_l. cbn [String_split]. by rewrite Ascii.eqb_refl.
  - cbn [includes]. intros [Hc Hx]%orb_false_elim.
    rewrite append_cons. cbn [String_split]. by rewrite Hc, IH.
Qed.

Lemma join_cons x y ys :
  Array_join linefeed (x :: y :: ys) = x +:+ String newline (Array_join linefeed (y :: ys)).
Proof.
  change (Array_join linefeed (x :: y :: ys))
    with (x +:+ linefeed +:+ Array_join linefeed (y :: ys)).
  unfold linefeed. by rewrite append_cons, append_nil_l.
Qed.

Lemma split_join lines :
  lines ≠ [] → Forall (λ x, includes x newline = false) lines →
  String_split newline (Array_join linefeed lines) = lines.
Proof.
  induction lines as [|x [|y ys] IH]; [done| |]; intros _ Hlines.
  - apply Forall_cons in Hlines as [Hx _]. by apply split_line.
  - apply Forall_cons in Hlines as [Hx Hys].
    rewrite join_cons, split_app_sep by done. by rewrite IH.
Qed.

Lemma join_clean lines :
  lines ≠ [] → Forall clean lines →
  Array_join linefeed lines ≠ EmptyString
  ∧ trimEnd (Array_join linefeed lines) = Array_join linefeed lines.
Proof.
  induction lines as [|x [|y ys] IH]; [done| |]; intros _ Hlines.
  - apply Forall_cons in Hlines as [(Hx & [_ Hend]%trim_fixed & _) _]. done.
  - apply Forall_cons in Hlines as [_ Hys]. destruct IH as [Hne Hend]; [done..|].
    rewrite join_cons. split; [by destruct x|].
    rewrite trimEnd_newline_app by (by rewrite Hend). by rewrite Hend.
Qed.

Lemma lead_join lines rest :
  lines ≠ [] → Forall clean lines →
  lead (Array_join linefeed lines +:+ String newline rest) = None.
Proof.
  destruct lines as [|x [|y ys]]; [done| |]; intros _ Hlines;
    apply Forall_cons in Hlines as [(Hx & [Hstart _]%trim_fixed & _) _];
    apply trimStart_fixed in Hstart.
  - by apply lead_app_newline.
  - rewrite join_cons, append_assoc, append_cons. by apply lead_app_newline.
Qed.

(** What [trim] makes of the output of the script. *)
Lemma trim_join lines :
  lines ≠ [] → Forall clean lines →
  trim (Array_join linefeed lines +:+ linefeed) = Array_join linefeed lines.
Proof.
  intros Hne Hlines. unfold trim, linefeed.
  rewrite (proj2 (trimStart_fixed _)) by (by apply lead_join).
  destruct (join_clean lines Hne Hlines) as [_ Hend].
  by apply trimEnd_app_blank.
Qed.

Lemma fmap_trim_clean lines : Forall clean lines → trim <$> lines = lines.
Proof.
  induction 1 as [|x xs (_ & Hx & _) _ IH]; [done|]. cbn [fmap list_fmap].
  rewrite Hx. f_equal. exact IH.
Qed.

Lemma getSelectedFinderItems_run {R} (result : thrown + string) (w : World R) :
  getSelectedFinderItems result w
  = match result with
    | inl error => (Normal [], logged [Error "Error getting Finder selection:" error] w)
    | inr stdout =>
        (Normal
           (if bool_decide (trim stdout = EmptyString) then []
            else filter (λ path, 0 < String.length path)
                   (trim <$> String_split newline (trim stdout))), w)
    end.
Proof.
  unfold getSelectedFinderItems, try_catch. destruct result as [error|stdout].
  - reflexivity.
  - rewrite run_bind. cbn [mret M_ret]. unfold truthy.
    case_bool_decide as Hout; [done|]. cbn [negb orb].
    destruct (trim stdout); done.
Qed.

End Lines.

(** X11 — [getSelectedFinderItems] never throws and changes nothing but
    the console: when the [osascript] call is rejected it writes one error
    line and returns the empty list; when the output is white space only it
    returns the empty list; and every item it returns is a piece of the
    output between line feeds with the white space at its ends removed: it
    is not empty, [trim] leaves it as it is, and it includes no line
    feed. *)
Theorem getSelectedFinderItems_never_throws {R} (result : thrown + string) (w : World R) :
  let r := FinderSelection.getSelectedFinderItems result w in
  (∃ items, r.1 = Normal items
     ∧ Forall (λ item, item ≠ EmptyString ∧ FinderSelection.trim item = item
                       ∧ includes item FinderSelection.newline = false) items)
  ∧ store r.2 = store w ∧ storage r.2 = storage w ∧ inflight r.2 = inflight w
  ∧ toasts r.2 = toasts w ∧ launched r.2 = launched w
  ∧ match result with
    | inl error =>
        r.1 = Normal []
        ∧ console r.2 = console w ++ [Error "Error getting Finder selection:" error]
    | inr stdout =>
        console r.2 = console w
        ∧ (FinderSelection.trim stdout = EmptyString → r.1 = Normal [])
    end.
Proof.
  cbv zeta. rewrite getSelectedFinderItems_run. destruct result as [error|stdout].
  - cbn. repeat split. exists []. by split.
  - cbn [fst snd]. split; [|repeat split; try done; by intros ->].
    eexists. split; [reflexivity|]. case_bool_decide as Hout; [constructor|].
    apply Forall_forall. intros item [Hlen Hitem]%list_elem_of_filter.
    apply list_elem_of_fmap in Hitem as (piece & -> & Hpiece).
    split; [by destruct (FinderSelection.trim piece); cbn in Hlen; [lia|]|].
    split; [apply trim_idem|]. apply includes_trim.
    pose proof (split_pieces FinderSelection.newline (FinderSelection.trim stdout)) as Hall.
    rewrite Forall_forall in Hall. by apply Hall.
Qed.

(** X12 — the round trip of the selection: when the script prints the
    selected paths joined by line feeds and [osascript] ends the output
    with one more, [getSelectedFinderItems] returns exactly these paths, in
    order, and touches nothing, provided every path is not empty, has no
    white space at either end and includes no line feed.  For an empty
    selection the output is the line feed alone and the result is the
    empty list. *)
Theorem getSelectedFinderItems_reads_the_paths {R} (paths : list string) (w : World R) :
  Forall (λ p, p ≠ EmptyString ∧ FinderSelection.trim p = p
               ∧ includes p FinderSelection.newline = false) paths →
  let lf := String FinderSelection.newline EmptyString in
  FinderSelection.getSelectedFinderItems (inr (Array_join lf paths +:+ lf)) w
  = (Normal paths, w).
Proof.
  intros Hpaths. cbv zeta. rewrite getSelectedFinderItems_run.
  destruct (decide (paths = [])) as [->|Hne]; [done|].
  fold linefeed. rewrite trim_join by done.
  destruct (join_clean paths Hne Hpaths) as [Hjoin _].
  rewrite bool_decide_false by done.
  rewrite split_join, fmap_trim_clean, filter_all; try done.
  - intros x Hx. rewrite Forall_forall in Hpaths. destruct (Hpaths x Hx) as (? & _).
    destruct x; cbn; [done | lia].
  - eapply Forall_impl; [exact Hpaths|]. by intros x (_ & _ & ?).
Qed.

Lemma getSelectedFinderItems_reads_the_paths_witness :
  let paths := ["/tmp/A/x/"; "/tmp/A/my notes.txt"] in
  let w : World unit := startup tt ∅ in
  Forall (λ p, p ≠ EmptyString ∧ FinderSelection.trim p = p
               ∧ includes p FinderSelection.newline = false) paths
  ∧ FinderSelection.getSelectedFinderItems
      (inr ("/tmp/A/x/" +:+ String FinderSelection.newline
              ("/tmp/A/my notes.txt" +:+ String FinderSelection.newline EmptyString))) w
    = (Normal paths, w).
Proof.
  cbv zeta.
  assert (Forall (λ p, p ≠ EmptyString ∧ FinderSelection.trim p = p
                       ∧ includes p FinderSelection.newline = false)
            ["/tmp/A/x/"; "/tmp/A/my notes.txt"]) as Hpaths.
  { repeat constructor; discriminate. }
  split; [exact Hpaths|].
  exact (getSelectedFinderItems_reads_the_paths ["/tmp/A/x/"; "/tmp/A/my notes.txt"]
           (startup tt ∅) Hpaths).
Defined.

(** ** How long a folder stays in the recent list *)

Section Retention.
Context (p : string) (Q : Folder → Prop) (HQ : ∀ f, Q f → path f = p).

Lemma filter_lookup_le {A} (P : A → Prop) `{∀ x, Decision (P x)} (l : list A) :
  ∀ i x, l !! i = Some x → P x → ∃ j, j ≤ i ∧ filter P l !! j = Some x.
Proof.
  induction l as [|y l IH]; intros i x Hi Hx; [done|].
  rewrite filter_cons. destruct i as [|i]; cbn in Hi.
  - injection Hi as ->. rewrite decide_True by done. by exists 0.
  - destruct (IH i x Hi Hx) as (j & Hj & Hlookup).
    destruct (decide (P y)); [exists (S j) | exists j]; split; try done; lia.
Qed.

Lemma updated_held g recent k :
  (path g = p → Q g) → held Q k recent → k < 9 →
  held Q (S k) (OpenInCursor.updatedRecentFolders g recent).
Proof.
  intros Hg (i & f & Hi & Hf & Hq) Hk. rewrite updated_unfold.
  destruct (decide (path g = p)) as [Hp|Hp].
  - exists 0, g. split; [lia|]. split; [done|]. by apply Hg.
  - destruct (filter_lookup_le (λ f, path f ≠ path g) recent i f Hf) as (j & Hj & Hlookup).
    { rewrite (HQ f Hq). congruence. }
    exists (S j), f. split; [lia|]. split; [|done].
    rewrite lookup_cons, lookup_take_lt by lia. done.
Qed.

Lemma foldl_held gs : ∀ recent k,
  (∀ g, g ∈ gs → path g = p → Q g) → held Q k recent → k + List.length gs ≤ 9 →
  held Q (k + List.length gs)
    (foldl (λ recent g, OpenInCursor.updatedRecentFolders g recent) recent gs).
Proof.
  induction gs as [|g gs IH]; intros recent k Hgs Hheld Hk.
  - cbn. by rewrite Nat.add_0_r.
  - cbn [foldl List.length] in *.
    replace (k + S (List.length gs)) with (S k + List.length gs) by lia.
    apply IH; [intros g' Hg' Hp'; apply Hgs; [by right | done] | | lia].
    apply updated_held; [apply Hgs; by left | done | lia].
Qed.

End Retention.

Lemma updated_again folder recent :
  OpenInCursor.updatedRecentFolders folder
    (OpenInCursor.updatedRecentFolders folder recent)
  = OpenInCursor.updatedRecentFolders folder recent.
Proof.
  rewrite !updated_unfold. f_equal. rewrite filter_cons, decide_False by (by intros []).
  rewrite filter_all; [by rewrite take_take|].
  intros f Hf. by apply updated_tail_paths in Hf.
Qed.

(** X13 — a folder stays in the recent list while at most nine insertions
    follow its own: after [addRecentFolder folder] and then the insertion,
    in order, of any nine folders or fewer, an entry with the folder's path
    is still among the first [n + 1] entries, [n] being the number of
    insertions that followed; it is the folder itself when none of the
    folders inserted later has its path (both browsers). *)
Theorem recent_folder_outlives_nine_insertions
    (folder : Folder) (later : list Folder) (w : World (list Folder)) :
  List.length later ≤ 9 →
  let kept (add : Folder → M (list Folder) unit) :=
    let r := (add folder;; for_of later add) w in
    r.1 = Normal tt
    ∧ path folder ∈ path <$> recentFolders (store r.2)
    ∧ (∃ i f, i ≤ List.length later ∧ recentFolders (store r.2) !! i = Some f
              ∧ path f = path folder)
    ∧ ((∀ g, g ∈ later → path g ≠ path folder) → folder ∈ recentFolders (store r.2)) in
  kept OpenInCursor.addRecentFolder ∧ kept OpenInCursorWork.addRecentFolder.
Proof.
  intros Hlen. cbv beta zeta.
  change OpenInCursorWork.addRecentFolder with OpenInCursor.addRecentFolder.
  rewrite run_bind, addRecentFolder_run.
  set (w1 := recorded _ _ w).
  destruct (for_of_addRecentFolder later w1) as [-> ->].
  assert (∀ Q : Folder → Prop, Q folder → held Q 0 (recentFolders (store w1))) as Hfirst.
  { intros Q Hq. exists 0, folder. split; [lia|]. split; [|done].
    unfold w1. cbn [recorded store recentFolders]. by rewrite updated_unfold. }
  assert (held (λ f, path f = path folder) (0 + List.length later)
            (foldl (λ recent g, OpenInCursor.updatedRecentFolders g recent)
               (recentFolders (store w1)) later)) as (i & f & Hi & Hf & Hp).
  { apply (foldl_held (path folder)); [done | done | by apply Hfirst | lia]. }
  assert (path folder ∈ path <$>
            foldl (λ recent g, OpenInCursor.updatedRecentFolders g recent)
              (recentFolders (store w1)) later) as Hin.
  { rewrite <- Hp. apply list_elem_of_fmap_2. by eapply list_elem_of_lookup_2. }
  assert ((∀ g, g ∈ later → path g ≠ path folder) →
          folder ∈ foldl (λ recent g, OpenInCursor.updatedRecentFolders g recent)
                     (recentFolders (store w1)) later) as Hsame.
  { intros Hlater.
    destruct (foldl_held (path folder) (λ f, f = folder) ltac:(by intros ? ->) later
                (recentFolders (store w1)) 0) as (j & f' & _ & Hf' & ->);
      [by intros g Hg ?%Hlater | by apply Hfirst | lia |].
    by eapply list_elem_of_lookup_2. }
  repeat split; eauto.
Qed.

Lemma recent_folder_outlives_nine_insertions_witness :
  let later := take 9 eleven in
  let r := (OpenInCursor.addRecentFolder folder_x;;
            for_of later OpenInCursor.addRecentFolder) (startup [] ∅) in
  List.length later ≤ 9
  ∧ path folder_x ∈ path <$> recentFolders (store r.2).
Proof.
  cbv zeta.
  assert (List.length (take 9 eleven) ≤ 9) as Hlen by (cbn; lia).
  split; [exact Hlen|].
  exact (proj1 (proj2 (proj1
    (recent_folder_outlives_nine_insertions folder_x (take 9 eleven) (startup [] ∅) Hlen)))).
Defined.

(** X14 — inserting the folder that was inserted last changes nothing:
    [addRecentFolder] run twice on a folder leaves the store that one run
    leaves, and once the requests have reached the storage the storage is
    the same too (both browsers). *)
Theorem addRecentFolder_again_changes_nothing (folder : Folder) (w : World (list Folder)) :
  let same (add : Folder → M (list Folder) unit) :=
    let once := add folder w in
    let twice := (add folder;; add folder) w in
    twice.1 = Normal tt
    ∧ store twice.2 = store once.2
    ∧ storage (LocalStorage.settle twice.2) = storage (LocalStorage.settle once.2)
    ∧ toasts twice.2 = toasts w ∧ launched twice.2 = launched w in
  same OpenInCursor.addRecentFolder ∧ same OpenInCursorWork.addRecentFolder.
Proof.
  cbv beta zeta. change OpenInCursorWork.addRecentFolder with OpenInCursor.addRecentFolder.
  rewrite run_bind, !addRecentFolder_run. cbv iota beta. rewrite ?addRecentFolder_run.
  cbn [fst snd recorded store recentFolders folders isLoading storage inflight toasts
       launched LocalStorage.settle].
  rewrite updated_again, !foldl_app. cbn [foldl LocalStorage.apply].
  rewrite insert_insert_eq. repeat split.
Qed.

(** X15 — without a home directory the browsers scan relative paths: when
    [HOME] is unset or empty, [HOME_DIR] is the empty string, [path.join]
    drops it, and the search paths are [Documents/...] and [Work/...],
    resolved by the file system against the working directory of the
    process. *)
Theorem search_paths_without_home (env : Env) :
  HOME env = None ∨ HOME env = Some EmptyString →
  OpenInCursor.DOCUMENTS_DIR env = "Documents"
  ∧ OpenInCursor.SEARCH_PATHS env
    = ["Documents/Projects"; "Documents/raycast-extensions"; "Documents/test-code"]
  ∧ OpenInCursorWork.WORK_DIR env = "Work"
  ∧ OpenInCursorWork.SEARCH_PATHS env
    = ["Work/bmads"; "Work/pet-projects"; "Work/projects"; "Work/raycast-extensions"].
Proof.
  unfold OpenInCursor.SEARCH_PATHS, OpenInCursorWork.SEARCH_PATHS,
    OpenInCursor.DOCUMENTS_DIR, OpenInCursorWork.WORK_DIR,
    OpenInCursor.HOME_DIR, OpenInCursorWork.HOME_DIR.
  intros [-> | ->]; repeat split; reflexivity.
Qed.

Lemma search_paths_without_home_witness :
  let env := mkEnv None (λ _, false) (λ _, inr []) (λ _ _, None) [] (λ _, Thrown "x") in
  HOME env = None
  ∧ OpenInCursor.SEARCH_PATHS env
    = ["Documents/Projects"; "Documents/raycast-extensions"; "Documents/test-code"].
Proof.
  cbv zeta. split; [reflexivity|].
  exact (proj1 (proj2 (search_paths_without_home
    (mkEnv None (λ _, false) (λ _, inr []) (λ _ _, None) [] (λ _, Thrown "x"))
    (or_introl eq_refl)))).
Defined.
